(** * A shallow embedding of the buddy allocator of [buddy.c]

    The allocator manages one arena of [2^MAX_ORDER] bytes cut into pages of
    [2^MIN_ORDER] bytes.  Three global arrays make up its state: the arena
    [g_memory] (whose contents the allocator never touches), the page
    descriptor table [g_pages] and the free-list directory [free_area].

    Conventions of the embedding:
    - an address is the byte offset of the pointer from [g_memory]; the null
      pointer is [None];
    - a pointer to a page descriptor, [&g_pages[k]], is the index [k]; it may
      lie outside the table as long as it is only compared, never followed;
    - a C [int] or [unsigned long] is a [Z]: every value the allocator
      computes stays below [2^21], so no wrap-around occurs;
    - an operation returns [None] where the C program has undefined
      behaviour (a descriptor access outside [g_pages], a negative shift
      count, a recursion that does not stop). *)

From Stdlib Require Import String DecimalString.
From Stdlib Require Import ZArith List Bool Lia Sorted.
Import ListNotations.
Local Open Scope Z_scope.

(** ** Constants and address macros *)

Definition MIN_ORDER : Z := 12.
Definition MAX_ORDER : Z := 20.

Definition PAGE_SIZE : Z := Z.shiftl 1 MIN_ORDER.

(** [n_pages] of [buddy_init], also the length of [g_pages]. *)
Definition N_PAGES : Z := Z.shiftl 1 MAX_ORDER / PAGE_SIZE.

Definition PAGE_TO_ADDR (page_idx : Z) : Z := page_idx * PAGE_SIZE.

Definition ADDR_TO_PAGE (addr : Z) : Z := addr / PAGE_SIZE.

Definition BUDDY_ADDR (addr o : Z) : Z := Z.lxor addr (Z.shiftl 1 o).

(** ** Undefined behaviour as an error monad *)

Definition bind {A B : Type} (m : option A) (k : A -> option B) : option B :=
  match m with
  | Some a => k a
  | None => None
  end.

Notation "x <- m ;; k" := (bind m (fun x => k))
  (at level 61, m at next level, right associativity).

(** ** The list library

    [list.h] is the circular doubly-linked list of the Linux kernel in its
    user-space edition (the header of [buddy.c] points to it); it is not part
    of the sources at hand.  A list head is modelled by the sequence of nodes
    that a forward traversal ([head->next], [->next], ...) visits, a node by
    the index of the page descriptor that embeds it.  [list_add (new, head)]
    links [new] between [head] and [head->next], so [new] becomes the first
    node of the traversal. *)

Definition list_add (new : Z) (head : list Z) : list Z := new :: head.

(** [list_del_init] unlinks a node from the list that holds it. *)
Fixpoint list_del_init (entry : Z) (head : list Z) : list Z :=
  match head with
  | [] => []
  | n :: rest => if n =? entry then rest else n :: list_del_init entry rest
  end.

(** ** Global state *)

Record page_t : Type := mk_page {
  order : Z;
  index : Z;
  memory : Z
}.

Record state : Type := mk_state {
  g_pages : list page_t;
  free_area : list (list Z)
}.

Fixpoint set_nth {A : Type} (n : nat) (v : A) (l : list A) : list A :=
  match l, n with
  | [], _ => []
  | _ :: t, O => v :: t
  | h :: t, S n' => h :: set_nth n' v t
  end.

(** [g_pages[idx]] read through a pointer: undefined outside the table. *)
Definition page_at (st : state) (idx : Z) : option page_t :=
  if idx <? 0 then None else nth_error (g_pages st) (Z.to_nat idx).

(** [g_pages[idx].order = v]. *)
Definition set_order (st : state) (idx v : Z) : option state :=
  pg <- page_at st idx ;;
  let pg' := mk_page v (index pg) (memory pg) in
  Some (mk_state (set_nth (Z.to_nat idx) pg' (g_pages st)) (free_area st)).

(** [free_area[k]], for an order [0 <= k <= MAX_ORDER]. *)
Definition free_list (st : state) (k : Z) : list Z :=
  nth (Z.to_nat k) (free_area st) [].

Definition set_free_list (st : state) (k : Z) (l : list Z) : state :=
  mk_state (g_pages st) (set_nth (Z.to_nat k) l (free_area st)).

(** [list_add(&g_pages[idx].list, &free_area[k])]. *)
Definition add_free (idx k : Z) (st : state) : state :=
  set_free_list st k (list_add idx (free_list st k)).

(** [list_del_init(&g_pages[idx].list)] for a node held by [free_area[k]]. *)
Definition del_free (idx k : Z) (st : state) : state :=
  set_free_list st k (list_del_init idx (free_list st k)).

(** ** [buddy_init]

    The list heads [free_area[0]] to [free_area[MIN_ORDER - 1]] are never
    initialised nor used by the program; they are kept as empty sequences. *)

Fixpoint init_pages (n : nat) (i : Z) : list page_t :=
  match n with
  | O => []
  | S n' => mk_page (-1) i (PAGE_TO_ADDR i) :: init_pages n' (i + 1)
  end.

Definition buddy_init : state :=
  add_free 0 MAX_ORDER
    (mk_state (init_pages (Z.to_nat N_PAGES) 0)
              (repeat [] (Z.to_nat (MAX_ORDER + 1)))).

(** ** [get_order] *)

Fixpoint get_order_from (fuel : nat) (ord x : Z) : Z :=
  match fuel with
  | O => -1
  | S fuel' =>
      if Z.shiftl 1 ord >=? x then ord else get_order_from fuel' (ord + 1) x
  end.

Definition get_order (x : Z) : Z :=
  get_order_from (Z.to_nat (MAX_ORDER + 1 - MIN_ORDER)) MIN_ORDER x.

(** ** [split_page] and [buddy_alloc] *)

(** The recursion of [split_page] stops when [i] meets [ord]; [fuel] bounds
    its depth, and running out of it stands for a recursion that would not
    stop ([i] below [ord]). *)
Fixpoint split_page_rec (fuel : nat) (page i ord : Z) (st : state)
  : option state :=
  if i =? ord then Some st
  else
    match fuel with
    | O => None
    | S fuel' =>
        let new_page_order := i - 1 in
        pg <- page_at st page ;;
        let buddy_page :=
          ADDR_TO_PAGE (BUDDY_ADDR (memory pg) new_page_order) in
        st1 <- set_order st buddy_page new_page_order ;;
        split_page_rec fuel' page new_page_order ord
          (add_free buddy_page new_page_order st1)
    end.

Definition split_page (page i ord : Z) (st : state) : option state :=
  split_page_rec (Z.to_nat (i - ord)) page i ord st.

(** The body of the [for] loop of [buddy_alloc] once [free_area[i]] is found
    not empty, [page] being its first entry: both branches unlink the page,
    set its order and return its address; the second one splits first. *)
Definition take_block (page i ord : Z) (st : state)
  : option (option Z * state) :=
  let st1 := del_free page i st in
  st2 <- (if ord =? i then Some st1 else split_page page i ord st1) ;;
  st3 <- set_order st2 page ord ;;
  pg <- page_at st3 page ;;
  Some (Some (memory pg), st3).

(** The [for] loop of [buddy_alloc], entered at order [i]. *)
Fixpoint alloc_scan (fuel : nat) (i ord : Z) (st : state)
  : option (option Z * state) :=
  match fuel with
  | O => Some (None, st)
  | S fuel' =>
      match free_list st i with
      | [] => alloc_scan fuel' (i + 1) ord st
      | page :: _ => take_block page i ord st
      end
  end.

Definition buddy_alloc (size : Z) (st : state) : option (option Z * state) :=
  let ord := get_order size in
  if ord =? -1 then Some (None, st)
  else alloc_scan (Z.to_nat (MAX_ORDER + 1 - ord)) ord ord st.

(** ** [buddy_free] *)

(** What a call of [buddy_free] did: the state it leaves, the order and the
    page at which the block was put on a free list ([None] when the loop ran
    out without inserting it), and the buddy pointers [&g_pages[b]] it formed,
    one pair (order, [b]) per iteration; the initialisation of [buddy_page]
    before the loop forms the pointer of the first iteration once more. *)
Record free_result : Type := mk_free_result {
  fr_state : state;
  fr_stop : option (Z * Z);
  fr_buddies : list (Z * Z)
}.

(** [temp != buddy_page] compares two descriptor pointers. *)
Definition same_page (temp : option Z) (buddy_page : Z) : bool :=
  match temp with
  | Some t => t =? buddy_page
  | None => false
  end.

(** The [for] loop of [buddy_free], entered at order [i].  The inner
    [list_for_each] starts at a node that is never null; its body runs at
    least once exactly when the list is not empty and each time stores the
    first entry of [free_area[i]] in [temp], which otherwise keeps the value
    of the previous iteration.  On the merging path [buddy_page] equals
    [temp]. *)
Fixpoint free_loop (fuel : nat) (i current_page idx : Z) (temp : option Z)
    (seen : list (Z * Z)) (st : state) : option free_result :=
  match fuel with
  | O => Some (mk_free_result st None (rev seen))
  | S fuel' =>
      cp <- page_at st current_page ;;
      let buddy_page := ADDR_TO_PAGE (BUDDY_ADDR (memory cp) i) in
      let temp' :=
        match free_list st i with
        | [] => temp
        | first :: _ => Some first
        end in
      let seen' := (i, buddy_page) :: seen in
      if negb (same_page temp' buddy_page) then
        st1 <- set_order st idx (-1) ;;
        Some (mk_free_result (add_free idx i st1) (Some (i, idx)) (rev seen'))
      else
        bp <- page_at st buddy_page ;;
        let next :=
          if memory bp <? memory cp then (buddy_page, index bp)
          else (current_page, idx) in
        free_loop fuel' (i + 1) (fst next) (snd next) temp' seen'
          (del_free buddy_page i st)
  end.

(** A descriptor order below [MIN_ORDER] (the [-1] of a page that heads no
    allocated block) makes the shift of [BUDDY_ADDR] or the access to
    [free_area] undefined. *)
Definition buddy_free (addr : Z) (st : state) : option free_result :=
  let current_page := ADDR_TO_PAGE addr in
  cp <- page_at st current_page ;;
  if order cp <? MIN_ORDER then None
  else
    free_loop (Z.to_nat (MAX_ORDER + 1 - order cp)) (order cp)
      current_page (index cp) None [] st.

(** ** Sequences of calls

    A client issues [buddy_alloc] and [buddy_free] calls after [buddy_init]
    and keeps the addresses it was given.  [reachable st live] holds when some
    such sequence of calls, in which every freed address is one that
    [buddy_alloc] returned and that was not freed since, leads to the state
    [st] with the blocks [live] in flight.  A block in flight is recorded as
    its address and the order it was allocated at. *)

Definition block : Type := (Z * Z)%type.

Definition block_eq_dec (a b : block) : {a = b} + {a <> b}.
Proof. decide equality; apply Z.eq_dec. Defined.

(** Takes one record of the block out of the blocks in flight. *)
Fixpoint remove_block (b : block) (live : list block) : list block :=
  match live with
  | [] => []
  | c :: rest =>
      if block_eq_dec c b then rest else c :: remove_block b rest
  end.

Inductive reachable : state -> list block -> Prop :=
| reach_init : reachable buddy_init []
| reach_alloc : forall st live size addr st',
    reachable st live ->
    buddy_alloc size st = Some (Some addr, st') ->
    reachable st' ((addr, get_order size) :: live)
| reach_alloc_fail : forall st live size st',
    reachable st live ->
    buddy_alloc size st = Some (None, st') ->
    reachable st' live
| reach_free : forall st live addr o r,
    reachable st live ->
    In (addr, o) live ->
    buddy_free addr st = Some r ->
    reachable (fr_state r) (remove_block (addr, o) live).

(** The same sequences, run: a call is refused ([None]) when it frees an
    address that is not in flight. *)
Inductive call : Type :=
| Alloc (size : Z)
| Free (addr : Z).

Definition config : Type := (state * list block)%type.

Definition find_live (addr : Z) (live : list block) : option block :=
  find (fun b => fst b =? addr) live.

Definition step (c : config) (x : call) : option config :=
  match x with
  | Alloc size =>
      r <- buddy_alloc size (fst c) ;;
      Some (snd r,
            match fst r with
            | Some addr => (addr, get_order size) :: snd c
            | None => snd c
            end)
  | Free addr =>
      b <- find_live addr (snd c) ;;
      r <- buddy_free addr (fst c) ;;
      Some (fr_state r, remove_block b (snd c))
  end.

Fixpoint run (calls : list call) (c : config) : option config :=
  match calls with
  | [] => Some c
  | x :: rest => c' <- step c x ;; run rest c'
  end.

(** The state after [buddy_init] and the given calls. *)
Definition after (calls : list call) : option config :=
  run calls (buddy_init, []).

(** ** Blocks as byte ranges *)

(** The block [(addr, o)] occupies the bytes [addr .. addr + 2^o - 1]. *)
Definition covers (off : Z) (b : block) : bool :=
  (fst b <=? off) && (off <? fst b + Z.shiftl 1 (snd b)).

Definition cover_count (off : Z) (bs : list block) : Z :=
  fold_right (fun b n => Z.b2z (covers off b) + n) 0 bs.

(** The orders that [buddy_dump] reports. *)
Definition order_range : list Z := [12; 13; 14; 15; 16; 17; 18; 19; 20].

Definition blocks_of (k : Z) (l : list Z) : list block :=
  map (fun p => (PAGE_TO_ADDR p, k)) l.

Definition free_blocks (st : state) : list block :=
  flat_map (fun k => blocks_of k (free_list st k)) order_range.

Definition in_arena (off : Z) : bool :=
  (0 <=? off) && (off <? Z.shiftl 1 MAX_ORDER).

(** Every byte of the arena lies in exactly one block, and no block reaches
    outside the arena. *)
Definition tiles (bs : list block) : Prop :=
  forall off, cover_count off bs = Z.b2z (in_arena off).

(** ** Invariants and auxiliary notions *)

(** The table has its [N_PAGES] descriptors, and the fields [index] and
    [memory], written once by [buddy_init], still tell where each descriptor
    sits. *)
Definition pages_wf (st : state) : Prop :=
  length (g_pages st) = Z.to_nat N_PAGES /\
  forall i pg, page_at st i = Some pg ->
               index pg = i /\ memory pg = PAGE_TO_ADDR i.

(** [free_area] has its [MAX_ORDER + 1] list heads. *)
Definition dir_wf (st : state) : Prop :=
  length (free_area st) = Z.to_nat (MAX_ORDER + 1).

(** Number of pages of a block of order [k]. *)
Definition span (k : Z) : Z := Z.shiftl 1 (k - MIN_ORDER).

(** The page index of the buddy that the macros compute for the block of
    order [i] at page [p]. *)
Definition buddy_index (p i : Z) : Z :=
  ADDR_TO_PAGE (BUDDY_ADDR (PAGE_TO_ADDR p) i).

(** How often the order [k] occurs in a list of orders. *)
Definition occurrences (k : Z) (ks : list Z) : Z :=
  fold_right (fun j n => (if j =? k then 1 else 0) + n) 0 ks.

(** Free blocks start at a page that their order aligns. *)
Definition free_ok (st : state) : Prop :=
  forall k p, MIN_ORDER <= k <= MAX_ORDER -> In p (free_list st k) ->
              0 <= p /\ p mod span k = 0.

(** A block in flight starts at an aligned page whose descriptor still holds
    the order it was allocated at. *)
Definition live_ok (st : state) (live : list block) : Prop :=
  forall a o, In (a, o) live ->
    exists q, a = PAGE_TO_ADDR q /\ 0 <= q /\
              MIN_ORDER <= o <= MAX_ORDER /\ q mod span o = 0 /\
              page_at st q = Some (mk_page o q (PAGE_TO_ADDR q)).

(** The invariant of the allocator, for a state [st] and the blocks [live]
    that its client holds. *)
Definition inv (st : state) (live : list block) : Prop :=
  pages_wf st /\ dir_wf st /\ free_ok st /\ live_ok st live /\
  tiles (live ++ free_blocks st).

(** What taking the first entry [p] of [free_area[s]] for a request of order
    [ord] does to the tables. *)
Definition taken (st st' : state) (p s ord : Z) (rest : list Z) : Prop :=
  pages_wf st' /\ dir_wf st' /\
  (forall j, 0 <= j ->
     free_list st' j =
     if j =? s then rest
     else if (ord <=? j) && (j <? s) then (p + span j) :: free_list st j
          else free_list st j) /\
  (forall j, ord <= j < s ->
     page_at st' (p + span j) =
     Some (mk_page j (p + span j) (PAGE_TO_ADDR (p + span j)))) /\
  page_at st' p = Some (mk_page ord p (PAGE_TO_ADDR p)) /\
  (forall q, q <> p -> (forall j, ord <= j < s -> q <> p + span j) ->
     page_at st' q = page_at st q) /\
  (forall off,
     cover_count off (free_blocks st') +
     Z.b2z (covers off (PAGE_TO_ADDR p, ord)) =
     cover_count off (free_blocks st)).

(** The value left in [temp] by an earlier iteration points into the block
    being freed, hence never to its buddy. *)
Definition temp_ok (temp : option Z) (cur i : Z) : Prop :=
  match temp with
  | None => True
  | Some t => cur <= t < cur + span i
  end.

(** The state inside the loop of [buddy_free]: the block of order [i] at
    page [cur] is in no list, and with it the other blocks tile the arena. *)
Definition held (st : state) (live : list block) (cur i : Z) : Prop :=
  pages_wf st /\ dir_wf st /\ free_ok st /\ live_ok st live /\
  0 <= cur /\ cur mod span i = 0 /\
  tiles ((PAGE_TO_ADDR cur, i) :: live ++ free_blocks st).

(** A buddy pointer formed at order [i] lies in the table, except at
    [MAX_ORDER], where it is [&g_pages[N_PAGES]], one past the last entry. *)
Definition buddy_ptr_ok (e : Z * Z) : Prop :=
  fst e <= MAX_ORDER /\
  (0 <= snd e < N_PAGES \/ (fst e = MAX_ORDER /\ snd e = N_PAGES)).

(** What a defined call of [buddy_free] that started at order [i] has done. *)
Definition freed (live : list block) (i : Z) (r : free_result) : Prop :=
  exists k c,
    fr_stop r = Some (k, c) /\ i <= k <= MAX_ORDER /\
    inv (fr_state r) live /\
    (exists rest, free_list (fr_state r) k = c :: rest) /\
    page_at (fr_state r) c = Some (mk_page (-1) c (PAGE_TO_ADDR c)) /\
    Forall buddy_ptr_ok (fr_buddies r).

(** No entry of a free list is followed by its own buddy: an entry is only
    put in front of a list whose first entry is not its buddy. *)
Fixpoint no_adjacent_buddies (k : Z) (l : list Z) : Prop :=
  match l with
  | x :: t =>
      match t with
      | y :: _ => y <> buddy_index x k
      | [] => True
      end /\ no_adjacent_buddies k t
  | [] => True
  end.

(** The same for every free list in use. *)
Definition adj_ok (st : state) : Prop :=
  forall k, MIN_ORDER <= k <= MAX_ORDER ->
            no_adjacent_buddies k (free_list st k).

(** ** [buddy_dump]

    The function only reads the free lists.  For every order from
    [MIN_ORDER] to [MAX_ORDER] it counts the nodes of the list and prints the
    count and the block size in kilobytes, [(1 << order) / 1024], as
    ["%d:%dK "], then a newline. *)

Definition dump_entry (st : state) (order_index : Z) : Z * Z :=
  (Z.of_nat (List.length (free_list st order_index)),
   Z.shiftl 1 order_index / 1024).

(** The pairs of numbers handed to [printf], in the order printed. *)
Definition dump_entries (st : state) : list (Z * Z) :=
  map (dump_entry st) order_range.

(** [%d] *)
Definition print_int (z : Z) : string := NilZero.string_of_int (Z.to_int z).

Definition buddy_dump (st : state) : string :=
  fold_right
    (fun e out =>
       (print_int (fst e) ++ ":" ++ print_int (snd e) ++ "K " ++ out)%string)
    (String (Ascii.ascii_of_nat 10) EmptyString)
    (dump_entries st).

(** ** Amounts of memory *)

(** The bytes of a list of blocks, added up. *)
Definition total_bytes (bs : list block) : Z :=
  fold_right (fun b n => Z.shiftl 1 (snd b) + n) 0 bs.

(** The free memory that a dump reports, in bytes. *)
Definition dumped_bytes (es : list (Z * Z)) : Z :=
  fold_right (fun e n => fst e * (snd e * 1024) + n) 0 es.

(** [f 0 + f 1 + ... + f (n - 1)]. *)
Fixpoint sum_below (f : Z -> Z) (n : nat) : Z :=
  match n with
  | O => 0
  | S n' => sum_below f n' + f (Z.of_nat n')
  end.

(** * The free lists as the spec describes them

    Which node [list_add] makes the first of a traversal is decided in
    [list.h], not in [buddy.c].  The embedding above follows the list
    library that the header of [buddy.c] names.  The spec asks something
    else of its list: "a forward traversal producing nodes in insertion
    order".  The module below embeds the same functions of [buddy.c] once
    more, over the list of the spec, for the one question that depends on
    the difference: how old the entry is that [buddy_alloc] takes.  To
    speak of the age of an entry, every call of [list_add] is numbered. *)

Module InsertionOrder.

(** A node on a free list: the index of the page descriptor that embeds it,
    and the number of the [list_add] call that linked it.  The number is not
    data of the program; no function below reads it. *)
Record node : Type := mk_node {
  node_page : Z;
  node_stamp : Z
}.

(** Modelled from the spec: [list_add] of [list.h], which is not among the
    sources.  The spec requires of the list "a forward traversal producing
    nodes in insertion order": the new node is reached after every node
    that is already on the list. *)
Definition list_add (new : node) (head : list node) : list node :=
  head ++ [new].

(** Modelled from the spec: [list_del_init] of [list.h], which is not among
    the sources; "removal given a node handle".  The node of the page leaves
    the list, the other nodes keep their places. *)
Fixpoint list_del_init (entry : Z) (head : list node) : list node :=
  match head with
  | [] => []
  | n :: rest =>
      if node_page n =? entry then rest else n :: list_del_init entry rest
  end.

(** The global state, and how many times [list_add] was called. *)
Record state : Type := mk_state {
  g_pages : list page_t;
  free_area : list (list node);
  inserted : Z
}.

Definition page_at (st : state) (idx : Z) : option page_t :=
  if idx <? 0 then None else nth_error (g_pages st) (Z.to_nat idx).

Definition set_order (st : state) (idx v : Z) : option state :=
  pg <- page_at st idx ;;
  let pg' := mk_page v (index pg) (memory pg) in
  Some (mk_state (set_nth (Z.to_nat idx) pg' (g_pages st)) (free_area st)
                 (inserted st)).

Definition free_list (st : state) (k : Z) : list node :=
  nth (Z.to_nat k) (free_area st) [].

(** [list_add(&g_pages[idx].list, &free_area[k])]. *)
Definition add_free (idx k : Z) (st : state) : state :=
  mk_state (g_pages st)
    (set_nth (Z.to_nat k)
       (list_add (mk_node idx (inserted st)) (free_list st k)) (free_area st))
    (inserted st + 1).

(** [list_del_init(&g_pages[idx].list)] for a node held by [free_area[k]]. *)
Definition del_free (idx k : Z) (st : state) : state :=
  mk_state (g_pages st)
    (set_nth (Z.to_nat k) (list_del_init idx (free_list st k)) (free_area st))
    (inserted st).

Definition buddy_init : state :=
  add_free 0 MAX_ORDER
    (mk_state (init_pages (Z.to_nat N_PAGES) 0)
              (repeat [] (Z.to_nat (MAX_ORDER + 1))) 0).

Fixpoint split_page_rec (fuel : nat) (page i ord : Z) (st : state)
  : option state :=
  if i =? ord then Some st
  else
    match fuel with
    | O => None
    | S fuel' =>
        let new_page_order := i - 1 in
        pg <- page_at st page ;;
        let buddy_page :=
          ADDR_TO_PAGE (BUDDY_ADDR (memory pg) new_page_order) in
        st1 <- set_order st buddy_page new_page_order ;;
        split_page_rec fuel' page new_page_order ord
          (add_free buddy_page new_page_order st1)
    end.

Definition split_page (page i ord : Z) (st : state) : option state :=
  split_page_rec (Z.to_nat (i - ord)) page i ord st.

Definition take_block (page i ord : Z) (st : state)
  : option (option Z * state) :=
  let st1 := del_free page i st in
  st2 <- (if ord =? i then Some st1 else split_page page i ord st1) ;;
  st3 <- set_order st2 page ord ;;
  pg <- page_at st3 page ;;
  Some (Some (memory pg), st3).

(** The [for] loop of [buddy_alloc]: the page taken is the one whose node
    is [free_area[i].next]. *)
Fixpoint alloc_scan (fuel : nat) (i ord : Z) (st : state)
  : option (option Z * state) :=
  match fuel with
  | O => Some (None, st)
  | S fuel' =>
      match free_list st i with
      | [] => alloc_scan fuel' (i + 1) ord st
      | first :: _ => take_block (node_page first) i ord st
      end
  end.

Definition buddy_alloc (size : Z) (st : state) : option (option Z * state) :=
  let ord := get_order size in
  if ord =? -1 then Some (None, st)
  else alloc_scan (Z.to_nat (MAX_ORDER + 1 - ord)) ord ord st.

Fixpoint free_loop (fuel : nat) (i current_page idx : Z) (temp : option Z)
    (st : state) : option state :=
  match fuel with
  | O => Some st
  | S fuel' =>
      cp <- page_at st current_page ;;
      let buddy_page := ADDR_TO_PAGE (BUDDY_ADDR (memory cp) i) in
      let temp' :=
        match free_list st i with
        | [] => temp
        | first :: _ => Some (node_page first)
        end in
      if negb (same_page temp' buddy_page) then
        st1 <- set_order st idx (-1) ;;
        Some (add_free idx i st1)
      else
        bp <- page_at st buddy_page ;;
        let next :=
          if memory bp <? memory cp then (buddy_page, index bp)
          else (current_page, idx) in
        free_loop fuel' (i + 1) (fst next) (snd next) temp'
          (del_free buddy_page i st)
  end.

Definition buddy_free (addr : Z) (st : state) : option state :=
  let current_page := ADDR_TO_PAGE addr in
  cp <- page_at st current_page ;;
  if order cp <? MIN_ORDER then None
  else
    free_loop (Z.to_nat (MAX_ORDER + 1 - order cp)) (order cp)
      current_page (index cp) None st.

(** The states that calls after [buddy_init] lead to, every freed address
    being one that [buddy_alloc] returned and that was not freed since. *)
Inductive reachable : state -> list block -> Prop :=
| reach_init : reachable buddy_init []
| reach_alloc : forall st live size addr st',
    reachable st live ->
    buddy_alloc size st = Some (Some addr, st') ->
    reachable st' ((addr, get_order size) :: live)
| reach_alloc_fail : forall st live size st',
    reachable st live ->
    buddy_alloc size st = Some (None, st') ->
    reachable st' live
| reach_free : forall st live addr o st',
    reachable st live ->
    In (addr, o) live ->
    buddy_free addr st = Some st' ->
    reachable st' (remove_block (addr, o) live).

Definition step (c : state * list block) (x : call)
  : option (state * list block) :=
  match x with
  | Alloc size =>
      r <- buddy_alloc size (fst c) ;;
      Some (snd r,
            match fst r with
            | Some addr => (addr, get_order size) :: snd c
            | None => snd c
            end)
  | Free addr =>
      b <- find_live addr (snd c) ;;
      st' <- buddy_free addr (fst c) ;;
      Some (st', remove_block b (snd c))
  end.

Fixpoint run (calls : list call) (c : state * list block)
  : option (state * list block) :=
  match calls with
  | [] => Some c
  | x :: rest => c' <- step c x ;; run rest c'
  end.

Definition after (calls : list call) : option (state * list block) :=
  run calls (buddy_init, []).





End InsertionOrder.

(** * Properties *)

Lemma MIN_ORDER_eq : MIN_ORDER = 12.
Proof. reflexivity. Qed.

Lemma MAX_ORDER_eq : MAX_ORDER = 20.
Proof. reflexivity. Qed.

(** Linear arithmetic that knows the two bounds on orders. *)
Ltac olia := pose proof MIN_ORDER_eq; pose proof MAX_ORDER_eq; lia.

(** Case analysis on every comparison of integers in the goal. *)
Ltac split_tests :=
  repeat match goal with
         | |- context [?a =? ?b] => destruct (Z.eqb_spec a b)
         | |- context [?a <=? ?b] => destruct (Z.leb_spec a b)
         | |- context [?a <? ?b] => destruct (Z.ltb_spec a b)
         end;
  cbn [andb].

(** ** Arrays *)

Lemma length_set_nth {A : Type} (n : nat) (v : A) (l : list A) :
  length (set_nth n v l) = length l.
Proof.
  revert n; induction l as [|h t IH]; intros [|n]; simpl; auto.
Qed.

Lemma nth_set_nth_eq {A : Type} (n : nat) (v d : A) (l : list A) :
  (n < length l)%nat -> nth n (set_nth n v l) d = v.
Proof.
  revert n; induction l as [|h t IH]; intros [|n] Hn; simpl in *;
    try lia; auto.
  apply IH; lia.
Qed.

Lemma nth_set_nth_ne {A : Type} (n m : nat) (v d : A) (l : list A) :
  n <> m -> nth m (set_nth n v l) d = nth m l d.
Proof.
  revert n m; induction l as [|h t IH]; intros [|n] [|m] Hne; simpl;
    try congruence; auto.
Qed.

Lemma nth_error_set_nth_eq {A : Type} (n : nat) (v : A) (l : list A) :
  (n < length l)%nat -> nth_error (set_nth n v l) n = Some v.
Proof.
  revert n; induction l as [|h t IH]; intros [|n] Hn; simpl in *;
    try lia; auto.
  apply IH; lia.
Qed.

Lemma nth_error_set_nth_ne {A : Type} (n m : nat) (v : A) (l : list A) :
  n <> m -> nth_error (set_nth n v l) m = nth_error l m.
Proof.
  revert n m; induction l as [|h t IH]; intros [|n] [|m] Hne; simpl;
    try congruence; auto.
Qed.

(** ** Well-formed tables *)

Lemma N_PAGES_eq : N_PAGES = 256.
Proof. reflexivity. Qed.

Lemma PAGE_SIZE_eq : PAGE_SIZE = 4096.
Proof. reflexivity. Qed.

Lemma page_at_range st i pg :
  page_at st i = Some pg -> 0 <= i < Z.of_nat (length (g_pages st)).
Proof.
  unfold page_at. destruct (Z.ltb_spec i 0); [discriminate|].
  intros H1. assert (Hn : nth_error (g_pages st) (Z.to_nat i) <> None) by congruence.
  apply nth_error_Some in Hn. lia.
Qed.

Lemma page_at_wf st i :
  pages_wf st -> 0 <= i < N_PAGES ->
  exists pg, page_at st i = Some pg /\ index pg = i /\ memory pg = PAGE_TO_ADDR i.
Proof.
  intros [Hlen Hpg] Hi.
  destruct (page_at st i) as [pg|] eqn:E.
  - exists pg. destruct (Hpg _ _ E); auto.
  - exfalso. unfold page_at in E.
    destruct (Z.ltb_spec i 0); [lia|].
    apply nth_error_None in E. lia.
Qed.

Lemma page_at_set_free_list st k l i :
  page_at (set_free_list st k l) i = page_at st i.
Proof. reflexivity. Qed.

Lemma set_order_spec st i v :
  pages_wf st -> 0 <= i < N_PAGES ->
  exists st',
    set_order st i v = Some st' /\
    free_area st' = free_area st /\
    pages_wf st' /\
    page_at st' i = Some (mk_page v i (PAGE_TO_ADDR i)) /\
    (forall j, j <> i -> page_at st' j = page_at st j).
Proof.
  intros Hwf Hi.
  destruct (page_at_wf st i Hwf Hi) as (pg & Epg & Eidx & Emem).
  unfold set_order. rewrite Epg. simpl. rewrite Eidx, Emem.
  eexists; split; [reflexivity|].
  assert (Hlt : (Z.to_nat i < length (g_pages st))%nat).
  { destruct Hwf as [Hlen _]. lia. }
  assert (Hsame : page_at
            (mk_state (set_nth (Z.to_nat i) (mk_page v i (PAGE_TO_ADDR i)) (g_pages st))
                      (free_area st)) i
          = Some (mk_page v i (PAGE_TO_ADDR i))).
  { unfold page_at; simpl. destruct (Z.ltb_spec i 0); [lia|].
    apply nth_error_set_nth_eq; auto. }
  assert (Hother : forall j, j <> i ->
            page_at
              (mk_state (set_nth (Z.to_nat i) (mk_page v i (PAGE_TO_ADDR i)) (g_pages st))
                        (free_area st)) j
            = page_at st j).
  { intros j Hj. unfold page_at; simpl. destruct (Z.ltb_spec j 0); auto.
    apply nth_error_set_nth_ne. lia. }
  repeat split; auto.
  - simpl. rewrite length_set_nth. apply Hwf.
  - destruct (Z.eq_dec i0 i) as [->|Hne].
    + rewrite Hsame in H. inversion H; reflexivity.
    + rewrite Hother in H by auto. apply Hwf in H. apply H.
  - destruct (Z.eq_dec i0 i) as [->|Hne].
    + rewrite Hsame in H. inversion H; reflexivity.
    + rewrite Hother in H by auto. apply Hwf in H. apply H.
Qed.

Lemma free_list_set_eq st k l :
  dir_wf st -> 0 <= k <= MAX_ORDER ->
  free_list (set_free_list st k l) k = l.
Proof.
  unfold dir_wf, free_list, set_free_list, MAX_ORDER; simpl; intros Hd Hk.
  apply nth_set_nth_eq. lia.
Qed.

Lemma free_list_set_ne st k l j :
  0 <= k -> 0 <= j -> j <> k ->
  free_list (set_free_list st k l) j = free_list st j.
Proof.
  unfold free_list, set_free_list; simpl; intros Hk Hj Hne.
  apply nth_set_nth_ne. lia.
Qed.

Lemma dir_wf_set_free_list st k l :
  dir_wf st -> dir_wf (set_free_list st k l).
Proof.
  unfold dir_wf, set_free_list; simpl. now rewrite length_set_nth.
Qed.

Lemma pages_wf_set_free_list st k l :
  pages_wf st -> pages_wf (set_free_list st k l).
Proof. intros H; exact H. Qed.

(** ** Powers of two and the buddy of an aligned block *)

Lemma span_pos k : MIN_ORDER <= k -> 0 < span k.
Proof.
  intros Hk. unfold span. rewrite Z.shiftl_1_l.
  apply Z.pow_pos_nonneg; lia.
Qed.

Lemma span_succ k : MIN_ORDER <= k -> span (k + 1) = 2 * span k.
Proof.
  intros Hk. unfold span. rewrite !Z.shiftl_1_l.
  replace (k + 1 - MIN_ORDER) with (Z.succ (k - MIN_ORDER)) by lia.
  apply Z.pow_succ_r; lia.
Qed.

Lemma block_bytes k : MIN_ORDER <= k -> Z.shiftl 1 k = span k * PAGE_SIZE.
Proof.
  intros Hk. unfold span, PAGE_SIZE. rewrite !Z.shiftl_1_l.
  rewrite <- Z.pow_add_r by (unfold MIN_ORDER in *; lia).
  f_equal; lia.
Qed.

Lemma span_MAX : span MAX_ORDER = N_PAGES.
Proof. reflexivity. Qed.

Lemma lxor_one c :
  0 <= c -> Z.lxor c 1 = if Z.even c then c + 1 else c - 1.
Proof.
  intros Hc. destruct (Z.even c) eqn:E.
  - apply Z.even_spec in E. destruct E as [h ->].
    apply Z.bits_inj'. intros n Hn. rewrite Z.lxor_spec.
    destruct (Z.eq_dec n 0) as [->|Hn0].
    + rewrite Z.testbit_even_0, Z.testbit_odd_0. reflexivity.
    + replace n with (Z.succ (n - 1)) by lia.
      rewrite Z.testbit_even_succ, Z.testbit_odd_succ by lia.
      change 1 with (2 * 0 + 1). rewrite Z.testbit_odd_succ by lia.
      rewrite Z.testbit_0_l. apply xorb_false_r.
  - assert (O : Z.odd c = true) by (rewrite <- Z.negb_even, E; reflexivity).
    apply Z.odd_spec in O. destruct O as [h ->].
    replace (2 * h + 1 - 1) with (2 * h) by lia.
    apply Z.bits_inj'. intros n Hn. rewrite Z.lxor_spec.
    destruct (Z.eq_dec n 0) as [->|Hn0].
    + rewrite Z.testbit_even_0, Z.testbit_odd_0. reflexivity.
    + replace n with (Z.succ (n - 1)) by lia.
      rewrite Z.testbit_even_succ, Z.testbit_odd_succ by lia.
      change 1 with (2 * 0 + 1). rewrite Z.testbit_odd_succ by lia.
      rewrite Z.testbit_0_l. apply xorb_false_r.
Qed.

Lemma lxor_scaled c j :
  0 <= j -> Z.lxor (c * 2 ^ j) (2 ^ j) = Z.lxor c 1 * 2 ^ j.
Proof.
  intros Hj.
  rewrite <- (Z.mul_1_l (2 ^ j)) at 2.
  rewrite <- !Z.shiftl_mul_pow2 by lia.
  symmetry. apply Z.shiftl_lxor.
Qed.

Lemma buddy_index_lxor p i :
  MIN_ORDER <= i -> buddy_index p i = Z.lxor p (span i).
Proof.
  intros Hi. unfold buddy_index, ADDR_TO_PAGE, BUDDY_ADDR, PAGE_TO_ADDR, span.
  unfold PAGE_SIZE. unfold MIN_ORDER in *.
  rewrite (Z.shiftl_1_l 12).
  replace (Z.shiftl 1 i) with (Z.shiftl (Z.shiftl 1 (i - 12)) 12).
  2:{ rewrite Z.shiftl_shiftl by lia. f_equal; lia. }
  rewrite <- (Z.shiftl_mul_pow2 p 12) by lia.
  rewrite <- Z.shiftl_lxor.
  rewrite <- Z.shiftr_div_pow2 by lia.
  rewrite Z.shiftr_shiftl_l by lia.
  replace (12 - 12) with 0 by lia. apply Z.shiftl_0_r.
Qed.

(** Of two buddies of order [i] the lower one is aligned for order [i+1]
    and the other one lies [span i] pages above it. *)
Lemma buddy_index_aligned p i :
  MIN_ORDER <= i -> 0 <= p -> p mod span i = 0 ->
  (p mod span (i + 1) = 0 /\ buddy_index p i = p + span i) \/
  (0 <= buddy_index p i /\ buddy_index p i mod span (i + 1) = 0 /\
   p = buddy_index p i + span i).
Proof.
  intros Hi Hp Hal.
  rewrite buddy_index_lxor by auto.
  pose proof (span_pos i Hi) as Hpos.
  rewrite span_succ by auto.
  apply Z.mod_divide in Hal; [|lia]. destruct Hal as [c ->].
  assert (Hc : 0 <= c) by nia.
  assert (E : Z.lxor (c * span i) (span i) = Z.lxor c 1 * span i).
  { unfold span. rewrite Z.shiftl_1_l. apply lxor_scaled. lia. }
  rewrite E, lxor_one by auto.
  destruct (Z.even c) eqn:Ev.
  - left. apply Z.even_spec in Ev. destruct Ev as [h ->]. split; [|lia].
    replace (2 * h * span i) with (h * (2 * span i)) by lia.
    apply Z.mod_mul. lia.
  - right.
    assert (O : Z.odd c = true) by (rewrite <- Z.negb_even, Ev; reflexivity).
    apply Z.odd_spec in O. destruct O as [h ->].
    replace (2 * h + 1 - 1) with (2 * h) by lia.
    assert (0 <= h) by lia.
    split; [nia|]. split; [|lia].
    replace (2 * h * span i) with (h * (2 * span i)) by lia.
    apply Z.mod_mul. lia.
Qed.

Lemma aligned_weaken p k :
  MIN_ORDER <= k -> p mod span (k + 1) = 0 -> p mod span k = 0.
Proof.
  intros Hk H. pose proof (span_pos k Hk).
  rewrite span_succ in H by auto.
  apply Z.mod_divide in H; [|lia]. destruct H as [c ->].
  replace (c * (2 * span k)) with (c * 2 * span k) by lia.
  apply Z.mod_mul. lia.
Qed.

Lemma aligned_upper p k :
  MIN_ORDER <= k -> p mod span (k + 1) = 0 -> (p + span k) mod span k = 0.
Proof.
  intros Hk H. pose proof (span_pos k Hk).
  apply aligned_weaken in H; auto.
  apply Z.mod_divide in H; [|lia]. destruct H as [c ->].
  replace (c * span k + span k) with ((c + 1) * span k) by lia.
  apply Z.mod_mul. lia.
Qed.

(** ** Counting the blocks over a byte *)

Lemma cover_count_cons off b bs :
  cover_count off (b :: bs) = Z.b2z (covers off b) + cover_count off bs.
Proof. reflexivity. Qed.

Lemma cover_count_app off bs1 bs2 :
  cover_count off (bs1 ++ bs2) = cover_count off bs1 + cover_count off bs2.
Proof.
  induction bs1 as [|b bs IH]; [reflexivity|].
  rewrite <- app_comm_cons, !cover_count_cons, IH. lia.
Qed.

Lemma b2z_range b : 0 <= Z.b2z b <= 1.
Proof. destruct b; simpl; lia. Qed.

Lemma cover_count_nonneg off bs : 0 <= cover_count off bs.
Proof.
  induction bs as [|b bs IH]; [simpl; lia|].
  rewrite cover_count_cons. pose proof (b2z_range (covers off b)). lia.
Qed.

Lemma cover_count_in off b bs :
  In b bs -> Z.b2z (covers off b) <= cover_count off bs.
Proof.
  induction bs as [|c bs IH]; [simpl; tauto|].
  rewrite cover_count_cons.
  pose proof (cover_count_nonneg off bs).
  pose proof (b2z_range (covers off c)).
  intros [->|Hin].
  - lia.
  - apply IH in Hin. lia.
Qed.

Lemma covers_true off a o :
  covers off (a, o) = true <-> a <= off < a + Z.shiftl 1 o.
Proof.
  unfold covers; simpl. rewrite andb_true_iff, Z.leb_le, Z.ltb_lt. tauto.
Qed.

(** Halving: a block of order [k+1] is its two halves of order [k]. *)
Lemma covers_halves off p k :
  MIN_ORDER <= k ->
  Z.b2z (covers off (PAGE_TO_ADDR p, k + 1)) =
  Z.b2z (covers off (PAGE_TO_ADDR p, k)) +
  Z.b2z (covers off (PAGE_TO_ADDR (p + span k), k)).
Proof.
  intros Hk. unfold covers; simpl.
  rewrite (block_bytes (k + 1)) by lia. rewrite span_succ by auto.
  rewrite (block_bytes k) by auto.
  pose proof (span_pos k Hk) as Hs.
  unfold PAGE_TO_ADDR. rewrite PAGE_SIZE_eq.
  repeat match goal with
         | |- context [?a <=? ?b] => destruct (Z.leb_spec a b)
         | |- context [?a <? ?b] => destruct (Z.ltb_spec a b)
         end; unfold andb, Z.b2z; lia.
Qed.

(** ** The free blocks after a change of one free list *)

Lemma occurrences_order_range k :
  MIN_ORDER <= k <= MAX_ORDER -> occurrences k order_range = 1.
Proof.
  unfold MIN_ORDER, MAX_ORDER. intros Hk.
  assert (H : k = 12 \/ k = 13 \/ k = 14 \/ k = 15 \/ k = 16 \/ k = 17 \/
              k = 18 \/ k = 19 \/ k = 20) by lia.
  repeat (destruct H as [->|H]; [reflexivity|]). subst; reflexivity.
Qed.

Lemma order_range_spec k : In k order_range <-> MIN_ORDER <= k <= MAX_ORDER.
Proof.
  unfold order_range, MIN_ORDER, MAX_ORDER; simpl. lia.
Qed.

Lemma cover_count_flat_set off st k l ks :
  dir_wf st -> 0 <= k <= MAX_ORDER -> (forall j, In j ks -> 0 <= j) ->
  cover_count off
    (flat_map (fun j => blocks_of j (free_list (set_free_list st k l) j)) ks) =
  cover_count off (flat_map (fun j => blocks_of j (free_list st j)) ks) +
  occurrences k ks *
    (cover_count off (blocks_of k l) -
     cover_count off (blocks_of k (free_list st k))).
Proof.
  intros Hd Hk. induction ks as [|j ks IH]; intros Hks.
  - simpl. lia.
  - cbn [flat_map]. rewrite !cover_count_app.
    change (occurrences k (j :: ks))
      with ((if j =? k then 1 else 0) + occurrences k ks).
    rewrite IH by (intros; apply Hks; simpl; auto).
    destruct (Z.eqb_spec j k) as [->|Hne].
    + rewrite free_list_set_eq by auto. lia.
    + assert (0 <= j) by (apply Hks; simpl; auto).
      rewrite free_list_set_ne by lia. lia.
Qed.

Lemma free_count_set off st k l :
  dir_wf st -> MIN_ORDER <= k <= MAX_ORDER ->
  cover_count off (free_blocks (set_free_list st k l)) =
  cover_count off (free_blocks st)
  - cover_count off (blocks_of k (free_list st k))
  + cover_count off (blocks_of k l).
Proof.
  intros Hd Hk. unfold free_blocks.
  rewrite cover_count_flat_set; auto.
  - rewrite occurrences_order_range by auto. lia.
  - unfold MIN_ORDER in Hk; lia.
  - intros j Hj. apply order_range_spec in Hj. unfold MIN_ORDER in Hj; lia.
Qed.

Lemma free_count_add off st q k :
  dir_wf st -> MIN_ORDER <= k <= MAX_ORDER ->
  cover_count off (free_blocks (add_free q k st)) =
  cover_count off (free_blocks st) + Z.b2z (covers off (PAGE_TO_ADDR q, k)).
Proof.
  intros Hd Hk. unfold add_free, list_add. rewrite free_count_set by auto.
  unfold blocks_of at 2. cbn [map]. rewrite cover_count_cons.
  fold (blocks_of k (free_list st k)). lia.
Qed.

Lemma list_del_init_head q rest : list_del_init q (q :: rest) = rest.
Proof. simpl. now rewrite Z.eqb_refl. Qed.

Lemma free_count_del off st q k rest :
  dir_wf st -> MIN_ORDER <= k <= MAX_ORDER ->
  free_list st k = q :: rest ->
  cover_count off (free_blocks (del_free q k st)) =
  cover_count off (free_blocks st) - Z.b2z (covers off (PAGE_TO_ADDR q, k)).
Proof.
  intros Hd Hk E. unfold del_free. rewrite free_count_set by auto.
  rewrite E, list_del_init_head.
  unfold blocks_of at 1. cbn [map]. rewrite cover_count_cons.
  fold (blocks_of k rest). lia.
Qed.

Lemma free_blocks_ext st st' :
  free_area st' = free_area st -> free_blocks st' = free_blocks st.
Proof.
  intros E. unfold free_blocks, free_list. now rewrite E.
Qed.

Lemma in_free_blocks st a k :
  In (a, k) (free_blocks st) <->
  MIN_ORDER <= k <= MAX_ORDER /\
  exists p, a = PAGE_TO_ADDR p /\ In p (free_list st k).
Proof.
  unfold free_blocks. rewrite in_flat_map. split.
  - intros (j & Hj & Hin). unfold blocks_of in Hin.
    apply in_map_iff in Hin. destruct Hin as (p & E & Hp).
    inversion E; subst. split; [now apply order_range_spec|].
    exists p; auto.
  - intros (Hk & p & -> & Hp). exists k. split; [now apply order_range_spec|].
    unfold blocks_of. apply in_map_iff. exists p; auto.
Qed.

(** ** The allocator invariant *)

Lemma shiftl_1_pos o : 0 <= o -> 0 < Z.shiftl 1 o.
Proof. intros Ho. rewrite Z.shiftl_1_l. apply Z.pow_pos_nonneg; lia. Qed.

Lemma in_arena_true off :
  in_arena off = true <-> 0 <= off < Z.shiftl 1 MAX_ORDER.
Proof.
  unfold in_arena. rewrite andb_true_iff, Z.leb_le, Z.ltb_lt. tauto.
Qed.

Lemma tiles_in_arena bs a o :
  tiles bs -> In (a, o) bs -> 0 <= o ->
  0 <= a /\ a + Z.shiftl 1 o <= Z.shiftl 1 MAX_ORDER.
Proof.
  intros Ht Hin Ho. pose proof (shiftl_1_pos o Ho) as Hpos.
  assert (Hc : forall off, covers off (a, o) = true -> in_arena off = true).
  { intros off Hcov. pose proof (cover_count_in off _ _ Hin) as Hle.
    rewrite Ht, Hcov in Hle. destruct (in_arena off); [reflexivity|].
    change (Z.b2z true) with 1 in Hle. change (Z.b2z false) with 0 in Hle. lia. }
  pose proof (Hc a) as H1. pose proof (Hc (a + Z.shiftl 1 o - 1)) as H2.
  rewrite covers_true, in_arena_true in H1, H2. lia.
Qed.

Lemma tiles_page_range bs p k :
  tiles bs -> In (PAGE_TO_ADDR p, k) bs -> MIN_ORDER <= k ->
  0 <= p /\ p + span k <= N_PAGES.
Proof.
  intros Ht Hin Hk.
  destruct (tiles_in_arena _ _ _ Ht Hin) as [H1 H2].
  { unfold MIN_ORDER in Hk; lia. }
  rewrite block_bytes in H2 by auto. rewrite (block_bytes MAX_ORDER) in H2.
  2: unfold MIN_ORDER, MAX_ORDER; lia.
  rewrite span_MAX, N_PAGES_eq in *.
  unfold PAGE_TO_ADDR in *. rewrite PAGE_SIZE_eq in *. lia.
Qed.

(** With [c] held aside, no other block reaches a byte of [c]. *)
Lemma tiles_excl c bs b off :
  tiles (c :: bs) -> In b bs -> covers off b = true -> covers off c = false.
Proof.
  intros Ht Hin Hb. specialize (Ht off). rewrite cover_count_cons in Ht.
  pose proof (cover_count_in off _ _ Hin) as Hle. rewrite Hb in Hle.
  pose proof (b2z_range (in_arena off)).
  destruct (covers off c); [|reflexivity].
  change (Z.b2z true) with 1 in *. lia.
Qed.

Lemma ADDR_TO_PAGE_TO_ADDR q : ADDR_TO_PAGE (PAGE_TO_ADDR q) = q.
Proof.
  unfold ADDR_TO_PAGE, PAGE_TO_ADDR. rewrite PAGE_SIZE_eq.
  apply Z.div_mul. lia.
Qed.

Lemma span_lt j k : MIN_ORDER <= j < k -> span j < span k.
Proof.
  intros H. unfold span. rewrite !Z.shiftl_1_l.
  apply Z.pow_lt_mono_r; lia.
Qed.

Lemma buddy_index_lower p k :
  MIN_ORDER <= k -> 0 <= p -> p mod span (k + 1) = 0 ->
  buddy_index p k = p + span k.
Proof.
  intros Hk Hp Hal.
  destruct (buddy_index_aligned p k Hk Hp (aligned_weaken _ _ Hk Hal))
    as [[_ E]|(Hb & Hbal & E)]; [exact E|].
  exfalso. pose proof (span_pos k Hk) as Hs.
  rewrite span_succ in * by auto.
  apply Z.mod_divide in Hal; [|lia]. apply Z.mod_divide in Hbal; [|lia].
  destruct Hal as [d Hd]. destruct Hbal as [c Hc].
  assert (Hz : span k * (2 * d - 2 * c - 1) = 0) by lia.
  apply Z.mul_eq_0 in Hz. lia.
Qed.

(** ** [split_page] *)

Lemma split_page_rec_spec ord p :
  MIN_ORDER <= ord -> 0 <= p ->
  forall n i st,
    i = ord + Z.of_nat n -> i <= MAX_ORDER ->
    pages_wf st -> dir_wf st ->
    p mod span i = 0 -> p + span i <= N_PAGES ->
    exists st',
      split_page_rec n p i ord st = Some st' /\
      pages_wf st' /\ dir_wf st' /\
      (forall j, 0 <= j ->
         free_list st' j =
         if (ord <=? j) && (j <? i) then (p + span j) :: free_list st j
         else free_list st j) /\
      (forall j, ord <= j < i ->
         page_at st' (p + span j) =
         Some (mk_page j (p + span j) (PAGE_TO_ADDR (p + span j)))) /\
      (forall q, (forall j, ord <= j < i -> q <> p + span j) ->
         page_at st' q = page_at st q) /\
      (forall off,
         cover_count off (free_blocks st') +
         Z.b2z (covers off (PAGE_TO_ADDR p, ord)) =
         cover_count off (free_blocks st) +
         Z.b2z (covers off (PAGE_TO_ADDR p, i))).
Proof.
  intros Hord Hp. induction n as [|n IH]; intros i st Hi Hmax Hwf Hd Hal Hfit.
  - replace i with ord by lia. cbn [split_page_rec]. rewrite Z.eqb_refl.
    exists st. split; [reflexivity|]. split; [auto|]. split; [auto|].
    split; [|split; [|split]]; auto.
    + intros j Hj.
      destruct (Z.leb_spec ord j), (Z.ltb_spec j ord); simpl; auto; lia.
    + intros j Hj; lia.
  - cbn [split_page_rec]. destruct (Z.eqb_spec i ord) as [->|Hne]; [lia|].
    assert (Hk : MIN_ORDER <= i - 1) by lia.
    pose proof (span_pos (i - 1) Hk) as Hs.
    assert (Hsi : span i = 2 * span (i - 1)).
    { rewrite <- span_succ by auto. f_equal; lia. }
    assert (Hal' : p mod span (i - 1 + 1) = 0)
      by (replace (i - 1 + 1) with i by lia; auto).
    destruct (page_at_wf st p Hwf) as (pg & Epg & _ & Emem); [lia|].
    rewrite Epg; cbn [bind]. rewrite Emem.
    fold (buddy_index p (i - 1)). rewrite buddy_index_lower by auto.
    destruct (set_order_spec st (p + span (i - 1)) (i - 1) Hwf)
      as (st1 & E1 & Hfa1 & Hwf1 & Hset1 & Hoth1); [lia|].
    rewrite E1; cbn [bind].
    set (st2 := add_free (p + span (i - 1)) (i - 1) st1).
    assert (Hd1 : dir_wf st1) by (unfold dir_wf; now rewrite Hfa1).
    destruct (IH (i - 1) st2) as (st' & E' & Hwf' & Hd' & Hfl & Hpg & Hoth & Hcnt);
      try lia.
    { apply pages_wf_set_free_list; auto. }
    { apply dir_wf_set_free_list; auto. }
    { apply aligned_weaken in Hal'; auto. }
    exists st'. split; [exact E'|]. split; [auto|]. split; [auto|].
    assert (Hfl1 : forall j, free_list st1 j = free_list st j).
    { intros j. unfold free_list. now rewrite Hfa1. }
    split; [|split; [|split]].
    + intros j Hj. rewrite Hfl by auto.
      destruct (Z.eq_dec j (i - 1)) as [->|Hji].
      * unfold st2, add_free, list_add.
        rewrite free_list_set_eq by (auto; unfold MIN_ORDER in *; lia).
        rewrite Hfl1.
        destruct (Z.leb_spec ord (i - 1)), (Z.ltb_spec (i - 1) (i - 1)),
          (Z.ltb_spec (i - 1) i); simpl; auto; lia.
      * unfold st2, add_free.
        rewrite free_list_set_ne by (unfold MIN_ORDER in *; lia).
        rewrite Hfl1.
        destruct (Z.leb_spec ord j), (Z.ltb_spec j (i - 1)), (Z.ltb_spec j i);
          simpl; auto; lia.
    + intros j Hj. destruct (Z.eq_dec j (i - 1)) as [->|Hji].
      * rewrite Hoth.
        -- unfold st2, add_free. rewrite page_at_set_free_list. exact Hset1.
        -- intros j' Hj'. pose proof (span_lt j' (i - 1)). lia.
      * apply Hpg. lia.
    + intros q Hq. rewrite Hoth.
      * unfold st2, add_free. rewrite page_at_set_free_list.
        apply Hoth1. apply Hq. lia.
      * intros j Hj. apply Hq. lia.
    + intros off. rewrite Hcnt. unfold st2.
      rewrite free_count_add by (auto; lia).
      rewrite (free_blocks_ext st st1) by auto.
      pose proof (covers_halves off p (i - 1) Hk) as Hh.
      replace (i - 1 + 1) with i in Hh by lia. lia.
Qed.

Lemma aligned_le p j s :
  MIN_ORDER <= j <= s -> p mod span s = 0 -> p mod span j = 0.
Proof.
  intros Hj Hal. pose proof (span_pos j (proj1 Hj)) as Hsj.
  assert (Hss : 0 < span s) by (apply span_pos; lia).
  assert (E : span s = 2 ^ (s - j) * span j).
  { unfold span. rewrite !Z.shiftl_1_l. rewrite <- Z.pow_add_r by lia.
    f_equal; lia. }
  apply Z.mod_divide in Hal; [|lia]. destruct Hal as [c ->].
  rewrite E. replace (c * (2 ^ (s - j) * span j)) with (c * 2 ^ (s - j) * span j) by lia.
  apply Z.mod_mul. lia.
Qed.

Lemma aligned_add_span p j :
  MIN_ORDER <= j -> p mod span j = 0 -> (p + span j) mod span j = 0.
Proof.
  intros Hj Hal. pose proof (span_pos j Hj).
  apply Z.mod_divide in Hal; [|lia]. destruct Hal as [c ->].
  replace (c * span j + span j) with ((c + 1) * span j) by lia.
  apply Z.mod_mul. lia.
Qed.

(** ** [buddy_alloc] *)

Lemma take_block_spec st p s ord rest :
  pages_wf st -> dir_wf st ->
  MIN_ORDER <= ord <= s -> s <= MAX_ORDER ->
  free_list st s = p :: rest ->
  0 <= p -> p mod span s = 0 -> p + span s <= N_PAGES ->
  exists st',
    take_block p s ord st = Some (Some (PAGE_TO_ADDR p), st') /\
    taken st st' p s ord rest.
Proof.
  intros Hwf Hd Hord Hmax Hs Hp Hal Hfit.
  unfold take_block.
  set (st1 := del_free p s st).
  assert (Hsplit : (if ord =? s then Some st1 else split_page p s ord st1) =
                   split_page_rec (Z.to_nat (s - ord)) p s ord st1).
  { destruct (Z.eqb_spec ord s) as [->|Hne]; [|reflexivity].
    rewrite Z.sub_diag. cbn [Z.to_nat split_page_rec].
    now rewrite Z.eqb_refl. }
  rewrite Hsplit.
  assert (Hwf1 : pages_wf st1) by (apply pages_wf_set_free_list; auto).
  assert (Hd1 : dir_wf st1) by (apply dir_wf_set_free_list; auto).
  destruct (split_page_rec_spec ord p (proj1 Hord) Hp (Z.to_nat (s - ord)) s st1)
    as (st2 & E2 & Hwf2 & Hd2 & Hfl2 & Hpg2 & Hoth2 & Hcnt2); auto; try lia.
  rewrite E2; cbn [bind].
  pose proof (span_pos s ltac:(lia)) as Hss.
  destruct (set_order_spec st2 p ord Hwf2)
    as (st3 & E3 & Hfa3 & Hwf3 & Hset3 & Hoth3); [lia|].
  rewrite E3; cbn [bind]. rewrite Hset3; cbn [bind memory].
  exists st3. split; [reflexivity|].
  assert (Hd3 : dir_wf st3) by (unfold dir_wf; now rewrite Hfa3).
  assert (Hfl3 : forall j, free_list st3 j = free_list st2 j).
  { intros j. unfold free_list. now rewrite Hfa3. }
  unfold taken. split; [auto|]. split; [auto|].
  split; [|split; [|split; [|split]]].
  - intros j Hj. rewrite Hfl3, Hfl2 by auto.
    destruct (Z.eqb_spec j s) as [->|Hjs].
    + unfold st1, del_free. rewrite free_list_set_eq by (auto; unfold MIN_ORDER in *; lia).
      rewrite Hs, list_del_init_head.
      destruct (Z.leb_spec ord s), (Z.ltb_spec s s); simpl; auto; lia.
    + unfold st1, del_free.
      rewrite free_list_set_ne by (unfold MIN_ORDER in *; lia). reflexivity.
  - intros j Hj. rewrite Hoth3.
    + apply Hpg2; auto.
    + pose proof (span_pos j ltac:(lia)). lia.
  - exact Hset3.
  - intros q Hq Hqj. rewrite Hoth3 by auto. rewrite Hoth2 by auto.
    reflexivity.
  - intros off. rewrite (free_blocks_ext st2 st3) by auto.
    rewrite Hcnt2. unfold st1.
    rewrite (free_count_del off st p s rest) by (auto; lia). lia.
Qed.

Lemma alloc_scan_spec st ord :
  forall n i,
    Z.of_nat n = MAX_ORDER + 1 - i ->
    (alloc_scan n i ord st = Some (None, st) /\
     forall k, i <= k <= MAX_ORDER -> free_list st k = []) \/
    (exists s p rest,
        i <= s <= MAX_ORDER /\
        (forall k, i <= k < s -> free_list st k = []) /\
        free_list st s = p :: rest /\
        alloc_scan n i ord st = take_block p s ord st).
Proof.
  induction n as [|n IH]; intros i Hn.
  - left. split; [reflexivity|]. intros k Hk. lia.
  - cbn [alloc_scan]. destruct (free_list st i) as [|p rest] eqn:E.
    + destruct (IH (i + 1)) as [[E1 Hemp]|(s & p & rest & Hs & Hemp & Es & E1)];
        [lia| |].
      * left. split; [exact E1|]. intros k Hk.
        destruct (Z.eq_dec k i) as [->|Hne]; [exact E|]. apply Hemp. lia.
      * right. exists s, p, rest. split; [lia|]. split; [|split; auto].
        intros k Hk. destruct (Z.eq_dec k i) as [->|Hne]; [exact E|].
        apply Hemp. lia.
    + right. exists i, p, rest. split; [lia|]. split; [|split; auto].
      intros k Hk. lia.
Qed.

Lemma get_order_cases x :
  (x <= 4096 /\ get_order x = 12) \/
  (4096 < x <= 8192 /\ get_order x = 13) \/
  (8192 < x <= 16384 /\ get_order x = 14) \/
  (16384 < x <= 32768 /\ get_order x = 15) \/
  (32768 < x <= 65536 /\ get_order x = 16) \/
  (65536 < x <= 131072 /\ get_order x = 17) \/
  (131072 < x <= 262144 /\ get_order x = 18) \/
  (262144 < x <= 524288 /\ get_order x = 19) \/
  (524288 < x <= 1048576 /\ get_order x = 20) \/
  (1048576 < x /\ get_order x = -1).
Proof.
  unfold get_order.
  change (Z.to_nat (MAX_ORDER + 1 - MIN_ORDER)) with 9%nat.
  cbn [get_order_from]. unfold MIN_ORDER.
  repeat match goal with
         | |- context [Z.shiftl 1 ?k >=? x] =>
             let v := eval vm_compute in (Z.shiftl 1 k) in
             change (Z.shiftl 1 k) with v;
             rewrite (Z.geb_leb v x); destruct (Z.leb_spec x v)
         end; lia.
Qed.

Lemma get_order_range x :
  get_order x = -1 \/ MIN_ORDER <= get_order x <= MAX_ORDER.
Proof.
  unfold MIN_ORDER, MAX_ORDER.
  pose proof (get_order_cases x). lia.
Qed.

Lemma covers_page q p k :
  MIN_ORDER <= k ->
  covers (PAGE_TO_ADDR q) (PAGE_TO_ADDR p, k) = true <-> p <= q < p + span k.
Proof.
  intros Hk. rewrite covers_true, block_bytes by auto.
  unfold PAGE_TO_ADDR. rewrite PAGE_SIZE_eq. lia.
Qed.

Lemma live_free_disjoint live fb b c off :
  tiles (live ++ fb) -> In b live -> In c fb ->
  covers off b = true -> covers off c = true -> False.
Proof.
  intros Ht Hb Hc Cb Cc. specialize (Ht off). rewrite cover_count_app in Ht.
  pose proof (cover_count_in off _ _ Hb) as H1.
  pose proof (cover_count_in off _ _ Hc) as H2.
  rewrite Cb in H1. rewrite Cc in H2.
  pose proof (b2z_range (in_arena off)).
  change (Z.b2z true) with 1 in *. lia.
Qed.

Lemma inv_free_block st live k p :
  inv st live -> MIN_ORDER <= k <= MAX_ORDER -> In p (free_list st k) ->
  0 <= p /\ p mod span k = 0 /\ p + span k <= N_PAGES.
Proof.
  intros (Hwf & Hd & Hfree & Hlive & Ht) Hk Hin.
  destruct (Hfree k p Hk Hin) as [Hp Hal].
  split; [auto|]. split; [auto|].
  apply (tiles_page_range (live ++ free_blocks st) p k); auto; [|lia].
  apply in_or_app. right. apply in_free_blocks. split; [auto|].
  exists p; auto.
Qed.

Lemma taken_inv st st' live p s ord rest :
  inv st live -> MIN_ORDER <= ord <= s -> s <= MAX_ORDER ->
  free_list st s = p :: rest ->
  taken st st' p s ord rest ->
  inv st' ((PAGE_TO_ADDR p, ord) :: live).
Proof.
  intros Hinv Hord Hmax Hs (Hwf' & Hd' & Hfl & Hpg & Hp' & Hoth & Hcnt).
  assert (Hin : In p (free_list st s)) by (rewrite Hs; simpl; auto).
  destruct (inv_free_block st live s p Hinv ltac:(lia) Hin) as (Hp & Hal & Hfit).
  destruct Hinv as (Hwf & Hd & Hfree & Hlive & Ht).
  split; [auto|]. split; [auto|]. split; [|split].
  - intros k q Hk Hq. rewrite Hfl in Hq by (unfold MIN_ORDER in *; lia).
    destruct (Z.eqb_spec k s) as [->|Hks].
    + apply Hfree; auto. rewrite Hs. simpl; auto.
    + destruct (Z.leb_spec ord k), (Z.ltb_spec k s); simpl in Hq;
        try (apply Hfree; auto; fail).
      destruct Hq as [<-|Hq]; [|apply Hfree; auto].
      pose proof (span_pos k ltac:(lia)).
      split; [lia|]. apply aligned_add_span; [lia|].
      apply (aligned_le p k s); auto; lia.
  - intros a o [E|Hao].
    + inversion E; subst a o. exists p. repeat split; auto; try lia.
      apply (aligned_le p ord s); auto; lia.
    + destruct (Hlive a o Hao) as (q & -> & Hq & Ho & Hqal & Hqpg).
      exists q. repeat split; auto; try lia.
      rewrite <- Hqpg.
      assert (Hout : ~ (p <= q < p + span s)).
      { intros Hrange.
        apply (live_free_disjoint live (free_blocks st)
                 (PAGE_TO_ADDR q, o) (PAGE_TO_ADDR p, s) (PAGE_TO_ADDR q)); auto.
        - apply in_free_blocks. split; [lia|]. exists p; auto.
        - apply covers_page; [lia|]. pose proof (span_pos o ltac:(lia)). lia.
        - apply covers_page; [lia|]. auto. }
      pose proof (span_pos s ltac:(lia)).
      apply Hoth; [lia|].
      intros j Hj. pose proof (span_lt j s ltac:(lia)).
      pose proof (span_pos j ltac:(lia)). lia.
  - intros off. rewrite <- app_comm_cons, cover_count_cons, cover_count_app.
    specialize (Ht off). rewrite cover_count_app in Ht.
    specialize (Hcnt off). lia.
Qed.

(** Every call of [buddy_alloc] in a state that satisfies the invariant is
    defined; it either fails and leaves the state alone, or takes the first
    entry of the first free list that is not empty. *)
Lemma buddy_alloc_spec st live size :
  inv st live ->
  (buddy_alloc size st = Some (None, st) /\
   (get_order size = -1 \/
    forall k, get_order size <= k <= MAX_ORDER -> free_list st k = [])) \/
  (exists s p rest st',
      MIN_ORDER <= get_order size <= s /\ s <= MAX_ORDER /\
      (forall k, get_order size <= k < s -> free_list st k = []) /\
      free_list st s = p :: rest /\
      buddy_alloc size st = Some (Some (PAGE_TO_ADDR p), st') /\
      taken st st' p s (get_order size) rest /\
      inv st' ((PAGE_TO_ADDR p, get_order size) :: live)).
Proof.
  intros Hinv. unfold buddy_alloc.
  destruct (get_order_range size) as [E|Hrange].
  - left. rewrite E. simpl. auto.
  - destruct (Z.eqb_spec (get_order size) (-1)) as [E|_];
      [unfold MIN_ORDER in *; lia|].
    destruct (alloc_scan_spec st (get_order size)
                (Z.to_nat (MAX_ORDER + 1 - get_order size)) (get_order size))
      as [[E Hemp]|(s & p & rest & Hs & Hemp & Es & E)]; [lia| |].
    + left. auto.
    + right. assert (Hin : In p (free_list st s)) by (rewrite Es; simpl; auto).
      destruct (inv_free_block st live s p Hinv ltac:(lia) Hin)
        as (Hp & Hal & Hfit).
      destruct (take_block_spec st p s (get_order size) rest)
        as (st' & Et & Htaken); auto; try lia; try apply Hinv.
      exists s, p, rest, st'. rewrite E, Et.
      split; [lia|]. split; [lia|]. split; [auto|]. split; [auto|].
      split; [reflexivity|]. split; [exact Htaken|].
      apply (taken_inv st st' live p s (get_order size) rest); auto; lia.
Qed.

(** ** [buddy_free] *)

Lemma cover_count_remove off b live :
  In b live ->
  cover_count off live =
  Z.b2z (covers off b) + cover_count off (remove_block b live).
Proof.
  induction live as [|c live IH]; [simpl; tauto|].
  intros Hin. cbn [remove_block]. destruct (block_eq_dec c b) as [->|Hne].
  - apply cover_count_cons.
  - destruct Hin as [E|Hin]; [congruence|].
    rewrite !cover_count_cons, (IH Hin). lia.
Qed.

Lemma remove_block_incl b live c : In c (remove_block b live) -> In c live.
Proof.
  induction live as [|d live IH]; cbn [remove_block]; [tauto|].
  destruct (block_eq_dec d b); simpl; intuition.
Qed.

Lemma held_range st live cur i :
  held st live cur i -> MIN_ORDER <= i -> cur + span i <= N_PAGES.
Proof.
  intros (_ & _ & _ & _ & _ & _ & Ht) Hi.
  apply (tiles_page_range _ cur i Ht); simpl; auto.
Qed.

Lemma held_live_page st live cur i q o :
  held st live cur i -> MIN_ORDER <= i -> MIN_ORDER <= o ->
  In (PAGE_TO_ADDR q, o) live -> q <> cur.
Proof.
  intros (_ & _ & _ & _ & _ & _ & Ht) Hi Ho Hin ->.
  assert (C : covers (PAGE_TO_ADDR cur) (PAGE_TO_ADDR cur, i) = false).
  { apply (tiles_excl _ _ (PAGE_TO_ADDR cur, o) _ Ht).
    - apply in_or_app; auto.
    - apply covers_page; auto. pose proof (span_pos o Ho). lia. }
  assert (C' : covers (PAGE_TO_ADDR cur) (PAGE_TO_ADDR cur, i) = true).
  { apply covers_page; auto. pose proof (span_pos i Hi). lia. }
  congruence.
Qed.

(** Merging happens exactly when the first entry of [free_area[i]] is the
    buddy, and never at [MAX_ORDER]. *)
Lemma held_merge_test st live cur i temp :
  held st live cur i -> MIN_ORDER <= i <= MAX_ORDER -> temp_ok temp cur i ->
  same_page
    (match free_list st i with [] => temp | first :: _ => Some first end)
    (buddy_index cur i) = true ->
  i < MAX_ORDER /\
  exists rest, free_list st i = buddy_index cur i :: rest.
Proof.
  intros Hh Hi Htemp Hsame.
  pose proof (held_range _ _ _ _ Hh (proj1 Hi)) as Hfit.
  destruct Hh as (_ & _ & _ & _ & Hcur & Hal & Ht).
  pose proof (span_pos i (proj1 Hi)) as Hs.
  pose proof (buddy_index_aligned cur i (proj1 Hi) Hcur Hal) as Hb.
  destruct (free_list st i) as [|h rest] eqn:E.
  - destruct temp as [t|]; simpl in *; [|discriminate].
    apply Z.eqb_eq in Hsame. lia.
  - simpl in Hsame. apply Z.eqb_eq in Hsame. subst h.
    split; [|eauto].
    assert (Hin : In (PAGE_TO_ADDR (buddy_index cur i), i)
                     ((PAGE_TO_ADDR cur, i) :: live ++ free_blocks st)).
    { right. apply in_or_app. right. apply in_free_blocks. split; [auto|].
      exists (buddy_index cur i). rewrite E. simpl; auto. }
    pose proof (tiles_page_range _ _ _ Ht Hin (proj1 Hi)) as Hr.
    destruct (Z.eq_dec i MAX_ORDER) as [->|]; [|lia].
    rewrite span_MAX in *. lia.
Qed.

Lemma held_buddy_ptr st live cur i :
  held st live cur i -> MIN_ORDER <= i <= MAX_ORDER ->
  buddy_ptr_ok (i, buddy_index cur i).
Proof.
  intros Hh Hi. pose proof (held_range _ _ _ _ Hh (proj1 Hi)) as Hfit.
  destruct Hh as (_ & _ & _ & _ & Hcur & Hal & _).
  pose proof (span_pos i (proj1 Hi)) as Hs.
  split; [cbn [fst]; lia|]. cbn [fst snd].
  destruct (Z.eq_dec i MAX_ORDER) as [->|Hne].
  - right. split; [reflexivity|]. rewrite span_MAX in *.
    destruct (buddy_index_aligned cur MAX_ORDER (proj1 Hi) Hcur Hal)
      as [[_ E]|(Hb & _ & E)]; rewrite span_MAX in E; lia.
  - left.
    destruct (buddy_index_aligned cur i (proj1 Hi) Hcur Hal)
      as [[Hal1 E]|(Hb & _ & E)]; [|lia].
    rewrite E. split; [lia|].
    assert (HN : N_PAGES mod span (i + 1) = 0).
    { apply (aligned_le N_PAGES (i + 1) MAX_ORDER); [lia|].
      rewrite span_MAX. apply Z.mod_same. rewrite N_PAGES_eq; lia. }
    rewrite span_succ in * by lia.
    apply Z.mod_divide in Hal1; [|lia]. apply Z.mod_divide in HN; [|lia].
    destruct Hal1 as [c Hc]. destruct HN as [m Hm].
    assert (c < m) by nia. nia.
Qed.

Lemma freed_weaken live i j r : j <= i -> freed live i r -> freed live j r.
Proof.
  intros Hj (k & c & H1 & H2 & H3). exists k, c. split; [auto|].
  split; [lia|auto].
Qed.

Lemma free_loop_spec live :
  forall n i cur temp seen st,
    Z.of_nat n = MAX_ORDER + 1 - i -> MIN_ORDER <= i <= MAX_ORDER ->
    held st live cur i -> temp_ok temp cur i ->
    Forall buddy_ptr_ok seen ->
    exists r, free_loop n i cur cur temp seen st = Some r /\ freed live i r.
Proof.
  induction n as [|n IH]; intros i cur temp seen st Hn Hi Hh Htemp Hseen; [lia|].
  pose proof (held_range _ _ _ _ Hh (proj1 Hi)) as Hfit.
  pose proof (span_pos i (proj1 Hi)) as Hs.
  pose proof (held_buddy_ptr _ _ _ _ Hh Hi) as Hptr.
  pose proof Hh as (Hwf & Hd & Hfree & Hlive & Hcur & Hal & Ht).
  cbn [free_loop].
  destruct (page_at_wf st cur Hwf) as (pg & Epg & Eidx & Emem); [lia|].
  rewrite Epg; cbn [bind]. rewrite Emem. fold (buddy_index cur i).
  destruct (same_page _ (buddy_index cur i)) eqn:Hsame; cbn [negb].
  - (* the buddy heads the list: merge *)
    destruct (held_merge_test st live cur i temp Hh Hi Htemp Hsame)
      as (Hlt & rest & Erest).
    assert (Hbin : In (buddy_index cur i) (free_list st i))
      by (rewrite Erest; simpl; auto).
    destruct (Hfree i _ Hi Hbin) as [Hb0 Hbal].
    assert (Hbfit : buddy_index cur i + span i <= N_PAGES).
    { apply (tiles_page_range _ _ i Ht); [|lia].
      right. apply in_or_app. right. apply in_free_blocks. split; [auto|].
      eexists; eauto. }
    destruct (page_at_wf st (buddy_index cur i) Hwf) as (bp & Ebp & Ebidx & Ebmem);
      [lia|].
    rewrite Ebp; cbn [bind]. rewrite Ebmem, Ebidx.
    set (st' := del_free (buddy_index cur i) i st).
    assert (Hfl' : forall j, 0 <= j ->
               free_list st' j = if j =? i then rest else free_list st j).
    { intros j Hj. unfold st', del_free. destruct (Z.eqb_spec j i) as [->|Hne].
      - rewrite free_list_set_eq by (auto; olia).
        rewrite Erest. apply list_del_init_head.
      - apply free_list_set_ne; olia. }
    assert (Hfree' : free_ok st').
    { intros k q Hk Hq. rewrite Hfl' in Hq by olia.
      destruct (Z.eqb_spec k i) as [->|Hne]; apply Hfree; auto.
      rewrite Erest. simpl; auto. }
    assert (Hcnt' : forall off,
               cover_count off (free_blocks st') =
               cover_count off (free_blocks st) -
               Z.b2z (covers off (PAGE_TO_ADDR (buddy_index cur i), i))).
    { intros off. apply (free_count_del off st _ i rest); auto. }
    assert (Hlo : forall lo,
               0 <= lo -> lo mod span (i + 1) = 0 ->
               (forall off,
                   Z.b2z (covers off (PAGE_TO_ADDR lo, i + 1)) =
                   Z.b2z (covers off (PAGE_TO_ADDR cur, i)) +
                   Z.b2z (covers off (PAGE_TO_ADDR (buddy_index cur i), i))) ->
               lo <= buddy_index cur i < lo + 2 * span i ->
               exists r,
                 free_loop n (i + 1) lo lo
                   (match free_list st i with
                    | [] => temp
                    | first :: _ => Some first
                    end) ((i, buddy_index cur i) :: seen) st' = Some r /\
                 freed live i r).
    { intros lo Hlo0 Hloal Hcov Hin.
      destruct (IH (i + 1) lo
                  (match free_list st i with
                   | [] => temp
                   | first :: _ => Some first
                   end) ((i, buddy_index cur i) :: seen) st')
        as (r & Er & Hr); try lia.
      - split; [exact Hwf|]. split; [apply dir_wf_set_free_list; auto|].
        split; [auto|]. split; [exact Hlive|]. split; [auto|]. split; [auto|].
        intros off. specialize (Ht off).
        rewrite cover_count_cons, cover_count_app in *.
        rewrite Hcnt', Hcov. lia.
      - rewrite Erest. simpl. rewrite span_succ by lia. exact Hin.
      - constructor; auto.
      - exists r. split; [exact Er|]. apply (freed_weaken live (i + 1)); auto.
        lia. }
    destruct (buddy_index_aligned cur i (proj1 Hi) Hcur Hal)
      as [[Hal1 Eb]|(Hb & Hbal1 & Eb)].
    + destruct (Z.ltb_spec (PAGE_TO_ADDR (buddy_index cur i)) (PAGE_TO_ADDR cur))
        as [Hlt'|_].
      { unfold PAGE_TO_ADDR in Hlt'. rewrite PAGE_SIZE_eq in Hlt'. lia. }
      cbn [fst snd]. apply Hlo; auto; [|lia].
      intros off. rewrite Eb. apply covers_halves. lia.
    + destruct (Z.ltb_spec (PAGE_TO_ADDR (buddy_index cur i)) (PAGE_TO_ADDR cur))
        as [_|Hge].
      2:{ unfold PAGE_TO_ADDR in Hge. rewrite PAGE_SIZE_eq in Hge. lia. }
      cbn [fst snd]. apply Hlo; auto; [|lia].
      intros off. rewrite Eb at 2.
      rewrite (covers_halves off (buddy_index cur i) i) by lia. lia.
  - (* otherwise: put the block on the list of order [i] *)
    destruct (set_order_spec st cur (-1) Hwf) as (st1 & E1 & Hfa1 & Hwf1 & Hset1 & Hoth1);
      [lia|].
    rewrite E1; cbn [bind].
    assert (Hd1 : dir_wf st1) by (unfold dir_wf; now rewrite Hfa1).
    assert (Hfl1 : forall j, free_list st1 j = free_list st j).
    { intros j. unfold free_list. now rewrite Hfa1. }
    eexists. split; [reflexivity|]. exists i, cur. cbn [fr_stop fr_state fr_buddies].
    split; [reflexivity|]. split; [lia|].
    assert (Ehead : free_list (add_free cur i st1) i = cur :: free_list st i).
    { unfold add_free, list_add.
      rewrite free_list_set_eq by (auto; olia).
      now rewrite Hfl1. }
    split; [|split; [|split]].
    + split; [apply pages_wf_set_free_list; auto|].
      split; [apply dir_wf_set_free_list; auto|].
      split; [|split].
      * intros k q Hk Hq. destruct (Z.eq_dec k i) as [->|Hne].
        -- rewrite Ehead in Hq. destruct Hq as [<-|Hq]; auto.
        -- unfold add_free in Hq.
           rewrite free_list_set_ne in Hq by olia.
           rewrite Hfl1 in Hq. auto.
      * intros a o Hao. destruct (Hlive a o Hao) as (q & -> & Hq & Ho & Hqal & Hqpg).
        exists q. repeat split; auto; try lia.
        unfold add_free. rewrite page_at_set_free_list.
        rewrite Hoth1; auto.
        apply (held_live_page st live cur i q o); auto; lia.
      * intros off. specialize (Ht off).
        rewrite cover_count_cons, cover_count_app in Ht.
        rewrite cover_count_app, free_count_add by auto.
        rewrite (free_blocks_ext st st1) by auto. lia.
    + eauto.
    + unfold add_free. rewrite page_at_set_free_list. exact Hset1.
    + apply Forall_rev. constructor; auto.
Qed.

(** Every valid call of [buddy_free] is defined, keeps the invariant and puts
    one block at the head of a free list of some order up to [MAX_ORDER]. *)
Lemma buddy_free_spec st live a o :
  inv st live -> In (a, o) live ->
  exists r,
    buddy_free a st = Some r /\ freed (remove_block (a, o) live) o r.
Proof.
  intros (Hwf & Hd & Hfree & Hlive & Ht) Hin.
  destruct (Hlive a o Hin) as (q & -> & Hq & Ho & Hqal & Hqpg).
  unfold buddy_free. rewrite ADDR_TO_PAGE_TO_ADDR, Hqpg. cbn [bind order index].
  destruct (Z.ltb_spec o MIN_ORDER); [lia|].
  apply free_loop_spec; auto; [lia| |exact I].
  split; [auto|]. split; [auto|]. split; [auto|]. split; [|split; [auto|split; [auto|]]].
  - intros a' o' Hin'. apply Hlive. eapply remove_block_incl; eauto.
  - intros off. specialize (Ht off).
    rewrite cover_count_app in Ht.
    rewrite (cover_count_remove off _ _ Hin) in Ht.
    rewrite cover_count_cons, cover_count_app. lia.
Qed.

(** ** The invariant holds in every reachable state *)

Lemma length_init_pages n i : length (init_pages n i) = n.
Proof.
  revert i; induction n as [|n IH]; intros i; simpl; auto.
Qed.

Lemma nth_error_init_pages n i k pg :
  nth_error (init_pages n i) k = Some pg ->
  pg = mk_page (-1) (i + Z.of_nat k) (PAGE_TO_ADDR (i + Z.of_nat k)).
Proof.
  revert i k; induction n as [|n IH]; intros i [|k] H; simpl in H;
    try discriminate.
  - inversion H. now rewrite Z.add_0_r.
  - apply IH in H. subst pg.
    replace (i + Z.of_nat (S k)) with (i + 1 + Z.of_nat k) by lia.
    reflexivity.
Qed.

Lemma inv_init : inv buddy_init [].
Proof.
  split; [|split; [|split; [|split]]].
  - assert (E : g_pages buddy_init = init_pages (Z.to_nat N_PAGES) 0)
      by reflexivity.
    split.
    + rewrite E. apply length_init_pages.
    + intros i pg H. pose proof (page_at_range _ _ _ H) as Hr.
      unfold page_at in H. destruct (Z.ltb_spec i 0); [lia|].
      rewrite E in H.
      apply nth_error_init_pages in H. subst pg; cbn [index memory].
      rewrite Z2Nat.id by lia. auto.
  - reflexivity.
  - intros k p Hk Hin.
    assert (Hc : k = 12 \/ k = 13 \/ k = 14 \/ k = 15 \/ k = 16 \/ k = 17 \/
                 k = 18 \/ k = 19 \/ k = 20) by olia.
    repeat (destruct Hc as [->|Hc]; [simpl in Hin; tauto|]).
    subst k. simpl in Hin. destruct Hin as [<-|[]]. split; [lia|reflexivity].
  - intros a o [].
  - intros off. change ([] ++ free_blocks buddy_init) with [(0, 20)].
    rewrite cover_count_cons. change (cover_count off []) with 0.
    rewrite Z.add_0_r. reflexivity.
Qed.

Theorem reachable_inv st live : reachable st live -> inv st live.
Proof.
  induction 1 as [|st live size addr st' _ IH E|st live size st' _ IH E
                  |st live addr o r _ IH Hin E].
  - exact inv_init.
  - destruct (buddy_alloc_spec st live size IH)
      as [[E' _]|(s & p & rest & st2 & _ & _ & _ & _ & E' & _ & Hinv)];
      rewrite E' in E; inversion E; subst; auto.
  - destruct (buddy_alloc_spec st live size IH)
      as [[E' _]|(s & p & rest & st2 & _ & _ & _ & _ & E' & _ & Hinv)];
      rewrite E' in E; inversion E; subst; auto.
  - destruct (buddy_free_spec st live addr o IH Hin)
      as (r' & E' & k & c & _ & _ & Hinv & _).
    rewrite E' in E; inversion E; subst; auto.
Qed.

(** A page heads at most one free block: its list node, embedded in the
    descriptor, is linked into at most one free list, at one place.  This is
    what lets a free list be modelled by the sequence of its nodes. *)
Lemma starts_distinct bs :
  (forall off, cover_count off bs <= 1) ->
  (forall b, In b bs -> 0 <= snd b) ->
  NoDup (map fst bs).
Proof.
  induction bs as [|b bs IH]; intros Hcnt Hord; [constructor|].
  cbn [map]. constructor.
  - intros Hin. apply in_map_iff in Hin. destruct Hin as (c & Ec & Hc).
    specialize (Hcnt (fst b)). rewrite cover_count_cons in Hcnt.
    pose proof (cover_count_in (fst b) c bs Hc) as Hle.
    pose proof (shiftl_1_pos (snd b) (Hord b (or_introl eq_refl))) as Hb.
    pose proof (shiftl_1_pos (snd c) (Hord c (or_intror Hc))) as Hcpos.
    assert (C1 : covers (fst b) b = true).
    { destruct b as [a o]. apply covers_true. cbn [fst snd] in *. lia. }
    assert (C2 : covers (fst b) c = true).
    { destruct c as [a o]. apply covers_true. cbn [fst snd] in *. lia. }
    rewrite C1 in Hcnt. rewrite C2 in Hle.
    change (Z.b2z true) with 1 in *. lia.
  - apply IH.
    + intros off. specialize (Hcnt off). rewrite cover_count_cons in Hcnt.
      pose proof (b2z_range (covers off b)). lia.
    + intros c Hc. apply Hord. right; exact Hc.
Qed.

Theorem free_nodes_distinct st live :
  reachable st live -> NoDup (map fst (free_blocks st)).
Proof.
  intros Hr. destruct (reachable_inv _ _ Hr) as (_ & _ & _ & _ & Ht).
  apply starts_distinct.
  - intros off. specialize (Ht off). rewrite cover_count_app in Ht.
    pose proof (cover_count_nonneg off live).
    pose proof (b2z_range (in_arena off)). lia.
  - intros [a k] Hin. apply in_free_blocks in Hin. cbn [snd]. olia.
Qed.

(** ** Running call sequences *)

Lemma step_reachable c x c' :
  reachable (fst c) (snd c) -> step c x = Some c' ->
  reachable (fst c') (snd c').
Proof.
  destruct c as [st live]. cbn [fst snd]. intros Hr. destruct x as [size|addr].
  - cbn [step fst snd]. destruct (buddy_alloc size st) as [[res st']|] eqn:E;
      cbn [bind]; [|discriminate].
    cbn [fst snd]. intros H; inversion H; subst c'; cbn [fst snd].
    destruct res as [a|].
    + eapply reach_alloc; eauto.
    + eapply reach_alloc_fail; eauto.
  - cbn [step fst snd]. destruct (find_live addr live) as [[a o]|] eqn:F;
      cbn [bind]; [|discriminate].
    destruct (buddy_free addr st) as [r|] eqn:E; cbn [bind]; [|discriminate].
    intros H; inversion H; subst c'; cbn [fst snd].
    unfold find_live in F. apply find_some in F. destruct F as [Hin Ha].
    cbn [fst] in Ha. apply Z.eqb_eq in Ha. subst a.
    eapply reach_free; eauto.
Qed.

Lemma run_reachable calls :
  forall c c', reachable (fst c) (snd c) -> run calls c = Some c' ->
               reachable (fst c') (snd c').
Proof.
  induction calls as [|x calls IH]; intros c c' Hr H; cbn [run] in H.
  - inversion H; subst; auto.
  - destruct (step c x) as [c1|] eqn:E; cbn [bind] in H; [|discriminate].
    apply (IH c1 c'); auto. eapply step_reachable; eauto.
Qed.

Lemma after_reachable calls st live :
  after calls = Some (st, live) -> reachable st live.
Proof.
  intros H. apply (run_reachable calls (buddy_init, []) (st, live)); auto.
  apply reach_init.
Qed.

(** The supplying order, its first entry and the outcome of [buddy_alloc],
    given the free lists. *)
Lemma buddy_alloc_at st live size s p rest :
  inv st live ->
  MIN_ORDER <= get_order size <= s -> s <= MAX_ORDER ->
  (forall k, get_order size <= k < s -> free_list st k = []) ->
  free_list st s = p :: rest ->
  exists st',
    buddy_alloc size st = Some (Some (PAGE_TO_ADDR p), st') /\
    taken st st' p s (get_order size) rest /\
    inv st' ((PAGE_TO_ADDR p, get_order size) :: live).
Proof.
  intros Hinv Hord Hmax Hemp Hs.
  destruct (buddy_alloc_spec st live size Hinv)
    as [[_ [E|Hall]]|(s' & p' & rest' & st' & Hord' & Hmax' & Hemp' & Hs' & E & Ht & Hi)].
  - olia.
  - rewrite Hall in Hs by lia. discriminate.
  - assert (s' = s).
    { destruct (Z.lt_trichotomy s' s) as [Hlt|[Heq|Hgt]]; auto.
      - rewrite Hemp in Hs' by lia. discriminate.
      - rewrite Hemp' in Hs by lia. discriminate. }
    subst s'. rewrite Hs in Hs'. inversion Hs'; subst p' rest'.
    exists st'. auto.
Qed.

Lemma take_block_not_null page i ord st st' :
  take_block page i ord st <> Some (None, st').
Proof.
  unfold take_block.
  destruct (if ord =? i then _ else _) as [st2|]; cbn [bind]; [|discriminate].
  destruct (set_order st2 page ord) as [st3|]; cbn [bind]; [|discriminate].
  destruct (page_at st3 page); cbn [bind]; discriminate.
Qed.

(** ** Neighbours on a free list *)

Lemma set_order_free_area st idx v st' :
  set_order st idx v = Some st' -> free_area st' = free_area st.
Proof.
  unfold set_order. destruct (page_at st idx); cbn [bind]; [|discriminate].
  intros H; inversion H; reflexivity.
Qed.

Lemma free_loop_adj :
  forall n i cur temp seen st r,
    Z.of_nat n = MAX_ORDER + 1 - i -> MIN_ORDER <= i ->
    pages_wf st -> dir_wf st -> adj_ok st ->
    free_loop n i cur cur temp seen st = Some r ->
    adj_ok (fr_state r).
Proof.
  induction n as [|n IH]; intros i cur temp seen st r Hn Hi Hwf Hd Hadj E;
    cbn [free_loop] in E.
  - inversion E; subst; auto.
  - destruct (page_at st cur) as [cp|] eqn:Ecp; cbn [bind] in E; [|discriminate].
    destruct (proj2 Hwf _ _ Ecp) as [_ Emem]. rewrite Emem in E.
    fold (buddy_index cur i) in E.
    destruct (same_page _ (buddy_index cur i)) eqn:Hsame; cbn [negb] in E.
    + destruct (page_at st (buddy_index cur i)) as [bp|] eqn:Ebp;
        cbn [bind] in E; [|discriminate].
      destruct (proj2 Hwf _ _ Ebp) as [Eidx _]. rewrite Eidx in E.
      assert (Hadj' : adj_ok (del_free (buddy_index cur i) i st)).
      { intros k Hk. unfold del_free. destruct (Z.eq_dec k i) as [->|Hne].
        - rewrite free_list_set_eq by (auto; olia).
          specialize (Hadj i Hk).
          destruct (free_list st i) as [|h rest]; [exact I|].
          cbn [same_page] in Hsame. apply Z.eqb_eq in Hsame. subst h.
          rewrite list_del_init_head. apply Hadj.
        - rewrite free_list_set_ne by olia. auto. }
      destruct (memory bp <? PAGE_TO_ADDR cur); cbn [fst snd] in E;
        (eapply (IH (i + 1));
         [lia | lia | apply pages_wf_set_free_list; exact Hwf
         | apply dir_wf_set_free_list; exact Hd | exact Hadj' | exact E]).
    + destruct (set_order st cur (-1)) as [st1|] eqn:E1; cbn [bind] in E;
        [|discriminate].
      inversion E; subst r; cbn [fr_state].
      pose proof (set_order_free_area _ _ _ _ E1) as Hfa.
      intros k Hk. unfold add_free, list_add.
      assert (Hfl1 : forall j, free_list st1 j = free_list st j).
      { intros j. unfold free_list. now rewrite Hfa. }
      assert (Hd1 : dir_wf st1) by (unfold dir_wf; now rewrite Hfa).
      destruct (Z.eq_dec k i) as [->|Hne].
      * rewrite free_list_set_eq by (auto; olia). rewrite Hfl1.
        specialize (Hadj i Hk). cbn [no_adjacent_buddies]. split; [|auto].
        destruct (free_list st i) as [|h rest]; [exact I|].
        cbn [same_page] in Hsame. apply Z.eqb_neq in Hsame. exact Hsame.
      * rewrite free_list_set_ne by olia. rewrite Hfl1. auto.
Qed.

Lemma adj_ok_init : adj_ok buddy_init.
Proof.
  intros k Hk.
  assert (Hc : k = 12 \/ k = 13 \/ k = 14 \/ k = 15 \/ k = 16 \/ k = 17 \/
               k = 18 \/ k = 19 \/ k = 20) by olia.
  repeat (destruct Hc as [->|Hc]; [simpl; tauto|]).
  subst k. simpl. tauto.
Qed.

Lemma taken_adj st st' p s ord rest :
  adj_ok st -> MIN_ORDER <= ord <= s -> s <= MAX_ORDER ->
  (forall k, ord <= k < s -> free_list st k = []) ->
  free_list st s = p :: rest ->
  taken st st' p s ord rest ->
  adj_ok st'.
Proof.
  intros Hadj Hord Hmax Hemp Hs (_ & _ & Hfl & _) k Hk.
  rewrite Hfl by olia.
  destruct (Z.eqb_spec k s) as [->|Hne].
  - specialize (Hadj s Hk). rewrite Hs in Hadj. apply Hadj.
  - destruct (Z.leb_spec ord k), (Z.ltb_spec k s); cbn [andb]; auto.
    rewrite Hemp by lia. simpl. tauto.
Qed.

Theorem reachable_adj st live : reachable st live -> adj_ok st.
Proof.
  induction 1 as [|st live size addr st' Hr IH E|st live size st' Hr IH E
                  |st live addr o r Hr IH Hin E].
  - exact adj_ok_init.
  - pose proof (reachable_inv _ _ Hr) as Hinv.
    destruct (buddy_alloc_spec st live size Hinv)
      as [[E' _]|(s & p & rest & st2 & Hord & Hmax & Hemp & Hs & E' & Ht & _)];
      rewrite E' in E; inversion E; subst.
    eapply taken_adj; eauto.
  - pose proof (reachable_inv _ _ Hr) as Hinv.
    destruct (buddy_alloc_spec st live size Hinv)
      as [[E' _]|(s & p & rest & st2 & _ & _ & _ & _ & E' & _)];
      rewrite E' in E; inversion E; subst; auto.
  - pose proof (reachable_inv _ _ Hr) as (Hwf & Hd & _ & Hlive & _).
    destruct (Hlive addr o Hin) as (q & -> & Hq & Ho & _ & Hpg).
    unfold buddy_free in E. rewrite ADDR_TO_PAGE_TO_ADDR, Hpg in E.
    cbn [bind order index] in E.
    destruct (Z.ltb_spec o MIN_ORDER); [lia|].
    eapply free_loop_adj; [| | | | |exact E]; auto; lia.
Qed.

(** ** Coalescing up a chain of free right halves *)

Lemma buddy_index_upper p k :
  MIN_ORDER <= k -> 0 <= p -> p mod span (k + 1) = 0 ->
  buddy_index (p + span k) k = p.
Proof.
  intros Hk Hp Hal. pose proof (span_pos k Hk) as Hs.
  destruct (buddy_index_aligned (p + span k) k Hk ltac:(lia)
              (aligned_upper _ _ Hk Hal))
    as [[Hal' _]|(_ & _ & E)]; [|lia].
  exfalso. rewrite span_succ in * by auto.
  apply Z.mod_divide in Hal; [|lia]. apply Z.mod_divide in Hal'; [|lia].
  destruct Hal as [c Hc]. destruct Hal' as [d Hd].
  assert (Hz : span k * (2 * d - 2 * c - 1) = 0) by lia.
  apply Z.mul_eq_0 in Hz. lia.
Qed.

Lemma free_area_ext st st' :
  dir_wf st -> dir_wf st' ->
  (forall j, 0 <= j <= MAX_ORDER -> free_list st' j = free_list st j) ->
  free_area st' = free_area st.
Proof.
  unfold dir_wf, free_list. intros Hd Hd' H.
  apply (nth_ext _ _ [] []); [congruence|].
  intros n Hn. specialize (H (Z.of_nat n)).
  rewrite Nat2Z.id in H. apply H. lia.
Qed.

(** The block of order [i] at page [p] is being freed, [p] is aligned for
    the order [s >= i], the right halves of orders [i] to [s-1] above [p] are
    alone on their free lists and the first entry of [free_area[s]] is not
    the buddy of [p]: the loop merges up to order [s] and stops there. *)
Lemma free_loop_chain p s :
  MIN_ORDER <= s <= MAX_ORDER -> 0 <= p ->
  p mod span s = 0 -> p + span s <= N_PAGES ->
  forall n i temp seen st,
    Z.of_nat n = MAX_ORDER + 1 - i -> MIN_ORDER <= i <= s ->
    pages_wf st -> dir_wf st ->
    (forall j, i <= j < s -> free_list st j = [p + span j]) ->
    match free_list st s with
    | [] => True
    | h :: _ => h <> buddy_index p s
    end ->
    temp_ok temp p i ->
    exists r,
      free_loop n i p p temp seen st = Some r /\
      fr_stop r = Some (s, p) /\
      pages_wf (fr_state r) /\ dir_wf (fr_state r) /\
      (forall j, 0 <= j ->
         free_list (fr_state r) j =
         if j =? s then p :: free_list st s
         else if (i <=? j) && (j <? s) then [] else free_list st j) /\
      page_at (fr_state r) p = Some (mk_page (-1) p (PAGE_TO_ADDR p)) /\
      (forall q, q <> p -> page_at (fr_state r) q = page_at st q).
Proof.
  intros Hs Hp Hal Hfit. pose proof (span_pos s (proj1 Hs)) as Hss.
  induction n as [|n IH]; intros i temp seen st Hn Hi Hwf Hd Hlists Hhead Htemp;
    [lia|].
  cbn [free_loop].
  destruct (page_at_wf st p Hwf) as (pg & Epg & Eidx & Emem); [lia|].
  rewrite Epg; cbn [bind]. rewrite Emem. fold (buddy_index p i).
  destruct (Z.eq_dec i s) as [->|Hne].
  - (* order [s]: the buddy does not head the list *)
    assert (Hsame : same_page
              (match free_list st s with [] => temp | first :: _ => Some first end)
              (buddy_index p s) = false).
    { destruct (free_list st s) as [|h rest].
      - destruct temp as [t|]; [|reflexivity]. cbn [same_page temp_ok] in *.
        apply Z.eqb_neq.
        destruct (buddy_index_aligned p s (proj1 Hs) Hp Hal)
          as [[_ E]|(_ & _ & E)]; lia.
      - cbn [same_page]. now apply Z.eqb_neq. }
    rewrite Hsame; cbn [negb].
    destruct (set_order_spec st p (-1) Hwf) as (st1 & E1 & Hfa1 & Hwf1 & Hset1 & Hoth1);
      [lia|].
    rewrite E1; cbn [bind]. eexists. split; [reflexivity|].
    cbn [fr_stop fr_state].
    assert (Hd1 : dir_wf st1) by (unfold dir_wf; now rewrite Hfa1).
    assert (Hfl1 : forall j, free_list st1 j = free_list st j).
    { intros j. unfold free_list. now rewrite Hfa1. }
    split; [reflexivity|]. split; [apply pages_wf_set_free_list; auto|].
    split; [apply dir_wf_set_free_list; auto|]. split; [|split].
    + intros j Hj. unfold add_free, list_add.
      destruct (Z.eqb_spec j s) as [->|Hjs].
      * rewrite free_list_set_eq by (auto; olia). now rewrite Hfl1.
      * rewrite free_list_set_ne by olia. rewrite Hfl1.
        destruct (Z.leb_spec s j), (Z.ltb_spec j s); cbn [andb]; auto; lia.
    + unfold add_free. rewrite page_at_set_free_list. exact Hset1.
    + intros q Hq. unfold add_free. rewrite page_at_set_free_list. auto.
  - (* below [s]: the right half is the buddy and heads the list *)
    assert (Hi' : MIN_ORDER <= i < s) by lia.
    pose proof (span_pos i (proj1 Hi')) as Hsi.
    pose proof (span_lt i s Hi') as Hlt.
    assert (Hal1 : p mod span (i + 1) = 0)
      by (apply (aligned_le p (i + 1) s); auto; lia).
    rewrite (Hlists i) by lia.
    rewrite buddy_index_lower by (auto; lia).
    cbn [same_page]. rewrite Z.eqb_refl; cbn [negb].
    destruct (page_at_wf st (p + span i) Hwf) as (bp & Ebp & Ebidx & Ebmem); [lia|].
    rewrite Ebp; cbn [bind]. rewrite Ebmem.
    destruct (Z.ltb_spec (PAGE_TO_ADDR (p + span i)) (PAGE_TO_ADDR p)) as [Hbad|_].
    { unfold PAGE_TO_ADDR in Hbad. rewrite PAGE_SIZE_eq in Hbad. lia. }
    cbn [fst snd].
    set (st' := del_free (p + span i) i st).
    assert (Hfl' : forall j, 0 <= j ->
               free_list st' j = if j =? i then [] else free_list st j).
    { intros j Hj. unfold st', del_free. destruct (Z.eqb_spec j i) as [->|Hji].
      - rewrite free_list_set_eq by (auto; olia).
        rewrite (Hlists i) by lia. apply list_del_init_head.
      - apply free_list_set_ne; olia. }
    destruct (IH (i + 1) (Some (p + span i)) ((i, p + span i) :: seen) st')
      as (r & Er & Hstop & Hwfr & Hdr & Hflr & Hpr & Hothr); try lia.
    + apply pages_wf_set_free_list; auto.
    + apply dir_wf_set_free_list; auto.
    + intros j Hj. rewrite Hfl' by olia.
      destruct (Z.eqb_spec j i); [lia|]. apply Hlists. lia.
    + rewrite Hfl' by olia. destruct (Z.eqb_spec s i); [lia|]. exact Hhead.
    + cbn [temp_ok]. rewrite span_succ by lia. lia.
    + exists r. split; [exact Er|]. split; [exact Hstop|].
      split; [auto|]. split; [auto|]. split; [|split; auto].
      intros j Hj. rewrite Hflr by auto. rewrite !Hfl' by olia.
      destruct (Z.eqb_spec s i); [lia|].
      destruct (Z.eqb_spec j s) as [->|Hjs]; [reflexivity|].
      destruct (Z.eqb_spec j i) as [->|Hji].
      * destruct (Z.leb_spec (i + 1) i), (Z.leb_spec i i), (Z.ltb_spec i s);
          cbn [andb]; auto; lia.
      * destruct (Z.leb_spec (i + 1) j), (Z.leb_spec i j), (Z.ltb_spec j s);
          cbn [andb]; auto; lia.
Qed.

Lemma span_le j k : MIN_ORDER <= j <= k -> span j <= span k.
Proof.
  intros H. destruct (Z.eq_dec j k) as [->|Hne]; [lia|].
  pose proof (span_lt j k). lia.
Qed.

(** Freeing the block of order [ord] at page [p] when the chain of right
    halves above it is free. *)
Lemma buddy_free_lower st p ord s :
  pages_wf st -> dir_wf st ->
  MIN_ORDER <= ord <= s -> s <= MAX_ORDER ->
  0 <= p -> p mod span s = 0 -> p + span s <= N_PAGES ->
  page_at st p = Some (mk_page ord p (PAGE_TO_ADDR p)) ->
  (forall j, ord <= j < s -> free_list st j = [p + span j]) ->
  match free_list st s with
  | [] => True
  | h :: _ => h <> buddy_index p s
  end ->
  exists r,
    buddy_free (PAGE_TO_ADDR p) st = Some r /\
    fr_stop r = Some (s, p) /\
    pages_wf (fr_state r) /\ dir_wf (fr_state r) /\
    (forall j, 0 <= j ->
       free_list (fr_state r) j =
       if j =? s then p :: free_list st s
       else if (ord <=? j) && (j <? s) then [] else free_list st j) /\
    page_at (fr_state r) p = Some (mk_page (-1) p (PAGE_TO_ADDR p)) /\
    (forall q, q <> p -> page_at (fr_state r) q = page_at st q).
Proof.
  intros Hwf Hd Hord Hmax Hp Hal Hfit Hpg Hlists Hhead.
  unfold buddy_free. rewrite ADDR_TO_PAGE_TO_ADDR, Hpg. cbn [bind order index].
  destruct (Z.ltb_spec ord MIN_ORDER); [lia|].
  apply (free_loop_chain p s); auto; try lia. exact I.
Qed.

(** Freeing the right half of order [ord] above page [p] when the left half
    is alone on the free list of that order and the chain above is free. *)
Lemma buddy_free_upper st p ord s :
  pages_wf st -> dir_wf st ->
  MIN_ORDER <= ord < s -> s <= MAX_ORDER ->
  0 <= p -> p mod span s = 0 -> p + span s <= N_PAGES ->
  page_at st (p + span ord) =
    Some (mk_page ord (p + span ord) (PAGE_TO_ADDR (p + span ord))) ->
  free_list st ord = [p] ->
  (forall j, ord < j < s -> free_list st j = [p + span j]) ->
  match free_list st s with
  | [] => True
  | h :: _ => h <> buddy_index p s
  end ->
  exists r,
    buddy_free (PAGE_TO_ADDR (p + span ord)) st = Some r /\
    fr_stop r = Some (s, p) /\
    pages_wf (fr_state r) /\ dir_wf (fr_state r) /\
    (forall j, 0 <= j ->
       free_list (fr_state r) j =
       if j =? s then p :: free_list st s
       else if (ord <=? j) && (j <? s) then [] else free_list st j).
Proof.
  intros Hwf Hd Hord Hmax Hp Hal Hfit Hpg Hfirst Hlists Hhead.
  pose proof (span_pos ord (proj1 Hord)) as Hso.
  pose proof (span_lt ord s Hord) as Hlt.
  assert (Hal1 : p mod span (ord + 1) = 0)
    by (apply (aligned_le p (ord + 1) s); auto; lia).
  unfold buddy_free. rewrite ADDR_TO_PAGE_TO_ADDR, Hpg. cbn [bind order index].
  destruct (Z.ltb_spec ord MIN_ORDER); [lia|].
  replace (Z.to_nat (MAX_ORDER + 1 - ord))
    with (S (Z.to_nat (MAX_ORDER + 1 - (ord + 1)))) by lia.
  cbn [free_loop]. rewrite Hpg; cbn [bind memory].
  fold (buddy_index (p + span ord) ord).
  rewrite buddy_index_upper by (auto; lia).
  rewrite Hfirst. cbn [same_page]. rewrite Z.eqb_refl; cbn [negb].
  destruct (page_at_wf st p Hwf) as (bp & Ebp & Ebidx & Ebmem); [lia|].
  rewrite Ebp; cbn [bind]. rewrite Ebmem, Ebidx.
  destruct (Z.ltb_spec (PAGE_TO_ADDR p) (PAGE_TO_ADDR (p + span ord)))
    as [_|Hbad].
  2:{ unfold PAGE_TO_ADDR in Hbad. rewrite PAGE_SIZE_eq in Hbad. lia. }
  cbn [fst snd].
  set (st' := del_free p ord st).
  assert (Hfl' : forall j, 0 <= j ->
             free_list st' j = if j =? ord then [] else free_list st j).
  { intros j Hj. unfold st', del_free. destruct (Z.eqb_spec j ord) as [->|Hji].
    - rewrite free_list_set_eq by (auto; olia).
      rewrite Hfirst. apply list_del_init_head.
    - apply free_list_set_ne; olia. }
  destruct (free_loop_chain p s ltac:(lia) Hp Hal Hfit
              (Z.to_nat (MAX_ORDER + 1 - (ord + 1))) (ord + 1) (Some p)
              [(ord, p)] st')
    as (r & Er & Hstop & Hwfr & Hdr & Hflr & _); try lia.
  - apply pages_wf_set_free_list; auto.
  - apply dir_wf_set_free_list; auto.
  - intros j Hj. rewrite Hfl' by olia.
    destruct (Z.eqb_spec j ord); [lia|]. apply Hlists. lia.
  - rewrite Hfl' by olia. destruct (Z.eqb_spec s ord); [lia|]. exact Hhead.
  - cbn [temp_ok]. pose proof (span_pos (ord + 1) ltac:(lia)). lia.
  - exists r. split; [exact Er|]. split; [exact Hstop|].
    split; [auto|]. split; [auto|].
    intros j Hj. rewrite Hflr by auto. rewrite !Hfl' by olia.
    destruct (Z.eqb_spec s ord); [lia|].
    destruct (Z.eqb_spec j s) as [->|Hjs]; [reflexivity|].
    destruct (Z.eqb_spec j ord) as [->|Hji].
    + destruct (Z.leb_spec (ord + 1) ord), (Z.leb_spec ord ord),
        (Z.ltb_spec ord s); cbn [andb]; auto; lia.
    + destruct (Z.leb_spec (ord + 1) j), (Z.leb_spec ord j), (Z.ltb_spec j s);
        cbn [andb]; auto; lia.
Qed.

(** ** A small reachable state *)

Lemma after_alloc_page :
  exists st,
    after [Alloc 4096] = Some (st, [(PAGE_TO_ADDR 0, 12)]).
Proof. eexists. vm_compute. reflexivity. Defined.

(** ** Blocks as byte ranges, continued *)

Lemma get_order_fits x :
  get_order x <> -1 -> x <= Z.shiftl 1 (get_order x).
Proof.
  destruct (get_order_cases x) as
    [H|[H|[H|[H|[H|[H|[H|[H|[H|H]]]]]]]]]; destruct H as [Hx ->];
    intros Hne; simpl; lia.
Qed.

Lemma page_aligned_bytes q o :
  MIN_ORDER <= o -> q mod span o = 0 ->
  PAGE_TO_ADDR q mod Z.shiftl 1 o = 0.
Proof.
  intros Ho Hal. pose proof (span_pos o Ho) as Hs.
  rewrite block_bytes by auto. unfold PAGE_TO_ADDR. rewrite PAGE_SIZE_eq.
  apply Z.mod_divide in Hal; [|lia]. destruct Hal as [c ->].
  replace (c * span o * 4096) with (c * (span o * 4096)) by lia.
  apply Z.mod_mul. lia.
Qed.

(** Two different entries of a list that both reach a byte count twice. *)
Lemma cover_count_two off b c bs :
  In b bs -> In c bs -> b <> c ->
  covers off b = true -> covers off c = true ->
  2 <= cover_count off bs.
Proof.
  induction bs as [|d bs IH]; [simpl; tauto|].
  intros Hb Hc Hne Cb Cc. rewrite cover_count_cons.
  pose proof (b2z_range (covers off d)).
  destruct Hb as [->|Hb], Hc as [->|Hc].
  - congruence.
  - pose proof (cover_count_in off c bs Hc) as Hle.
    rewrite Cb. rewrite Cc in Hle. change (Z.b2z true) with 1 in *. lia.
  - pose proof (cover_count_in off b bs Hb) as Hle.
    rewrite Cc. rewrite Cb in Hle. change (Z.b2z true) with 1 in *. lia.
  - specialize (IH Hb Hc Hne Cb Cc). lia.
Qed.

(** Two blocks of which none reaches a byte of the other lie apart. *)
Lemma apart_of_pointwise a o a' o' :
  0 <= o -> 0 <= o' ->
  (forall off, covers off (a, o) = true -> covers off (a', o') = true ->
               False) ->
  a + Z.shiftl 1 o <= a' \/ a' + Z.shiftl 1 o' <= a.
Proof.
  intros Ho Ho' H.
  pose proof (shiftl_1_pos o Ho). pose proof (shiftl_1_pos o' Ho').
  destruct (Z_le_gt_dec (a + Z.shiftl 1 o) a'); [auto|].
  destruct (Z_le_gt_dec (a' + Z.shiftl 1 o') a); [auto|].
  exfalso. apply (H (Z.max a a')); apply covers_true; lia.
Qed.

(** ** The free lists of the spec: oldest first

    Over the list of the spec every free list holds its nodes in the order
    of their insertion, in every state that calls lead to. *)

Module InsertionOrderFacts.
Import InsertionOrder.

(** *** The insertion numbers along a list *)






















(** *** What [buddy_alloc] removes *)











End InsertionOrderFacts.

(** Pages 0 to 7 are allocated and then all freed, pages 2, 0 and 4 first.
    Over the list of the spec too, pages 0 and 1, buddies at order 12, both
    end on the free list of order 12, and the list of order [MAX_ORDER]
    stays empty. *)
Lemma unmerged_in_insertion_order :
  exists st,
    InsertionOrder.after
      [Alloc 4096; Alloc 4096; Alloc 4096; Alloc 4096;
       Alloc 4096; Alloc 4096; Alloc 4096; Alloc 4096;
       Free (PAGE_TO_ADDR 2); Free (PAGE_TO_ADDR 0); Free (PAGE_TO_ADDR 4);
       Free (PAGE_TO_ADDR 1); Free (PAGE_TO_ADDR 3); Free (PAGE_TO_ADDR 5);
       Free (PAGE_TO_ADDR 6); Free (PAGE_TO_ADDR 7)] = Some (st, []) /\
    map InsertionOrder.node_page (InsertionOrder.free_list st 12) =
    [0; 4; 1; 5; 6; 7] /\
    InsertionOrder.free_list st 20 = [].
Proof.
  eexists. split; [vm_compute; reflexivity|]. split; reflexivity.
Qed.

(** * The claims *)

(** C1 (conservation).  After any sequence of [buddy_alloc] and
    [buddy_free] calls issued after [buddy_init], in which every freed
    address is one that [buddy_alloc] returned and that was not freed since,
    the byte ranges of the blocks in flight (each of the size of the order it
    was allocated at) and of the blocks on the free lists of orders
    [MIN_ORDER] to [MAX_ORDER] tile the arena: each byte of the arena lies in
    exactly one of them and none reaches outside.  From such a state every
    further [buddy_alloc] call and every [buddy_free] call on a block in
    flight is defined, so the sequence can always be continued. *)
Theorem tiling_conserved st live :
  reachable st live ->
  tiles (live ++ free_blocks st) /\
  (forall size, exists res st', buddy_alloc size st = Some (res, st')) /\
  (forall addr o, In (addr, o) live -> exists r, buddy_free addr st = Some r).
Proof.
  intros Hr. pose proof (reachable_inv st live Hr) as Hinv.
  split; [apply Hinv|]. split.
  - intros size.
    destruct (buddy_alloc_spec st live size Hinv)
      as [[E _]|(s & p & rest & st2 & _ & _ & _ & _ & E & _)]; eauto.
  - intros addr o Hin.
    destruct (buddy_free_spec st live addr o Hinv Hin) as (r & E & _).
    eauto.
Qed.

Lemma tiling_conserved_witness :
  exists st,
    after [Alloc 4096] = Some (st, [(PAGE_TO_ADDR 0, 12)]) /\
    tiles ([(PAGE_TO_ADDR 0, 12)] ++ free_blocks st) /\
    (forall size, exists res st', buddy_alloc size st = Some (res, st')) /\
    (forall addr o, In (addr, o) [(PAGE_TO_ADDR 0, 12)] ->
                    exists r, buddy_free addr st = Some r).
Proof.
  destruct after_alloc_page as [st E].
  exists st. split; [exact E|].
  apply (tiling_conserved st [(PAGE_TO_ADDR 0, 12)]).
  apply (after_reachable [Alloc 4096]). exact E.
Defined.

(** C2 (coalescing step), evaluated where the code departs from it.  Pages 0
    to 7 are allocated one by one, then pages 2, 0 and 4 are freed; none of
    them is the buddy of another, so all three stay on [free_area[12]], page
    0 between the other two.  Freeing page 1 now finds its buddy, page 0, on
    the free list of order 12, though not as its first entry: [buddy_free]
    does not merge and puts page 1 on the same list, leaving the free list
    of order 13 empty. *)
Theorem free_skips_listed_buddy :
  exists st live r,
    after [Alloc 4096; Alloc 4096; Alloc 4096; Alloc 4096;
           Alloc 4096; Alloc 4096; Alloc 4096; Alloc 4096;
           Free (PAGE_TO_ADDR 2); Free (PAGE_TO_ADDR 0); Free (PAGE_TO_ADDR 4)]
      = Some (st, live) /\
    In (PAGE_TO_ADDR 1, 12) live /\
    free_list st 12 = [4; 0; 2] /\
    In (buddy_index 1 12) (free_list st 12) /\
    buddy_free (PAGE_TO_ADDR 1) st = Some r /\
    fr_stop r = Some (12, 1) /\
    free_list (fr_state r) 12 = [1; 4; 0; 2] /\
    free_list (fr_state r) 13 = [].
Proof.
  do 3 eexists. split; [vm_compute; reflexivity|].
  split; [simpl; tauto|]. split; [reflexivity|].
  split; [vm_compute; tauto|].
  split; [vm_compute; reflexivity|]. split; [reflexivity|].
  split; reflexivity.
Qed.




(** C4 (merge-to-completion round trip), evaluated where the code departs
    from it.  The first [buddy_alloc(4096)] after [buddy_init] splits the
    whole arena; at order 12 the split produces page 0, which is returned,
    and its buddy, page 1, which the second call returns.  Six more pages
    are allocated, then all eight are freed, pages 2, 0 and 4 first, so that
    page 0 is on [free_area[12]] but does not head it when page 1 is freed.
    In the end nothing is in flight, yet pages 0 and 1 are both still on the
    free list of order 12, not merged, and the free lists are not those of
    [buddy_init], to which the claim says they return. *)
Theorem round_trip_not_restored :
  exists st1 st,
    after [Alloc 4096] = Some (st1, [(PAGE_TO_ADDR 0, 12)]) /\
    free_list st1 12 = [1] /\
    buddy_index 0 12 = 1 /\
    after [Alloc 4096; Alloc 4096; Alloc 4096; Alloc 4096;
           Alloc 4096; Alloc 4096; Alloc 4096; Alloc 4096;
           Free (PAGE_TO_ADDR 2); Free (PAGE_TO_ADDR 0); Free (PAGE_TO_ADDR 4);
           Free (PAGE_TO_ADDR 1); Free (PAGE_TO_ADDR 3); Free (PAGE_TO_ADDR 5);
           Free (PAGE_TO_ADDR 6); Free (PAGE_TO_ADDR 7)]
      = Some (st, []) /\
    In 0 (free_list st 12) /\ In 1 (free_list st 12) /\
    free_list st 20 = [] /\
    free_list buddy_init 12 = [] /\ free_list buddy_init 20 = [0] /\
    free_area st <> free_area buddy_init.
Proof.
  do 2 eexists. split; [vm_compute; reflexivity|].
  split; [reflexivity|]. split; [reflexivity|].
  split; [vm_compute; reflexivity|].
  split; [vm_compute; tauto|]. split; [vm_compute; tauto|].
  split; [reflexivity|]. split; [reflexivity|]. split; [reflexivity|].
  vm_compute. discriminate.
Qed.



(** C6 (split correctness).  When [buddy_alloc(size)] is served from a
    supplying order [s] above [get_order size], it returns the base address
    of the supplying block [p]; every order [j] from [get_order size] to
    [s-1], whose free list was empty, receives exactly one block, the right
    half [p + 2^j] bytes above the base, with descriptor order [j]; the free
    list of order [s] loses its first entry; no other free list changes; and
    the returned block is marked with the requested order.  Hence exactly
    [s - get_order size] blocks are added. *)
Theorem split_correctness st live size s p rest :
  reachable st live ->
  MIN_ORDER <= get_order size < s -> s <= MAX_ORDER ->
  (forall k, get_order size <= k < s -> free_list st k = []) ->
  free_list st s = p :: rest ->
  exists st',
    buddy_alloc size st = Some (Some (PAGE_TO_ADDR p), st') /\
    (forall j, get_order size <= j < s ->
       free_list st' j = [p + span j] /\
       PAGE_TO_ADDR (p + span j) = PAGE_TO_ADDR p + Z.shiftl 1 j /\
       option_map order (page_at st' (p + span j)) = Some j) /\
    free_list st' s = rest /\
    (forall j, 0 <= j -> ~ get_order size <= j <= s ->
       free_list st' j = free_list st j) /\
    option_map order (page_at st' p) = Some (get_order size).
Proof.
  intros Hr Hord Hmax Hemp Hs. pose proof (reachable_inv _ _ Hr) as Hinv.
  destruct (buddy_alloc_at st live size s p rest Hinv ltac:(lia) Hmax Hemp Hs)
    as (st' & E & (_ & _ & Hfl & Hpg & Hp & _) & _).
  exists st'. split; [exact E|]. split; [|split; [|split]].
  - intros j Hj. split; [|split].
    + rewrite Hfl by olia.
      destruct (Z.eqb_spec j s); [lia|].
      destruct (Z.leb_spec (get_order size) j), (Z.ltb_spec j s); try lia.
      cbn [andb]. now rewrite Hemp by lia.
    + unfold PAGE_TO_ADDR. rewrite block_bytes by lia. lia.
    + rewrite Hpg by lia. reflexivity.
  - rewrite Hfl by olia. now rewrite Z.eqb_refl.
  - intros j Hj Hout. rewrite Hfl by auto.
    destruct (Z.eqb_spec j s); [lia|].
    destruct (Z.leb_spec (get_order size) j), (Z.ltb_spec j s); try lia;
      reflexivity.
  - rewrite Hp. reflexivity.
Qed.

Lemma split_correctness_witness :
  exists st',
    buddy_alloc 4096 buddy_init = Some (Some (PAGE_TO_ADDR 0), st') /\
    (forall j, get_order 4096 <= j < 20 ->
       free_list st' j = [0 + span j] /\
       PAGE_TO_ADDR (0 + span j) = PAGE_TO_ADDR 0 + Z.shiftl 1 j /\
       option_map order (page_at st' (0 + span j)) = Some j) /\
    free_list st' 20 = [] /\
    (forall j, 0 <= j -> ~ get_order 4096 <= j <= 20 ->
       free_list st' j = free_list buddy_init j) /\
    option_map order (page_at st' 0) = Some (get_order 4096).
Proof.
  apply (split_correctness buddy_init [] 4096 20 0 []).
  - apply reach_init.
  - vm_compute. split; [discriminate|reflexivity].
  - vm_compute. discriminate.
  - intros k Hk. change (get_order 4096) with 12 in Hk.
    assert (H : k = 12 \/ k = 13 \/ k = 14 \/ k = 15 \/ k = 16 \/ k = 17 \/
                k = 18 \/ k = 19) by lia.
    repeat (destruct H as [->|H]; [reflexivity|]). subst k; reflexivity.
  - reflexivity.
Defined.




(** C8 (failure of [buddy_alloc]).  In any state, [buddy_alloc(size)]
    returns the null pointer exactly when [size] exceeds [2^MAX_ORDER] or
    every free list from order [get_order size] to [MAX_ORDER] is empty, and
    a call that returns the null pointer leaves the descriptor table and the
    free lists as they were. *)
Theorem alloc_failure st size :
  ((exists st', buddy_alloc size st = Some (None, st')) <->
   (Z.shiftl 1 MAX_ORDER < size \/
    forall k, get_order size <= k <= MAX_ORDER -> free_list st k = [])) /\
  (forall st', buddy_alloc size st = Some (None, st') -> st' = st).
Proof.
  change (Z.shiftl 1 MAX_ORDER) with 1048576.
  assert (Hfail : get_order size = -1 <-> 1048576 < size).
  { pose proof (get_order_cases size). lia. }
  unfold buddy_alloc.
  destruct (Z.eqb_spec (get_order size) (-1)) as [E|Hne].
  - split.
    + split; [intros _; left; now apply Hfail|eauto].
    + intros st' H. now inversion H.
  - destruct (alloc_scan_spec st (get_order size)
                (Z.to_nat (MAX_ORDER + 1 - get_order size)) (get_order size))
      as [[E Hemp]|(s & p & rest & Hs & Hemp & Es & E)].
    { destruct (get_order_range size); olia. }
    + rewrite E. split.
      * split; [auto|eauto].
      * intros st' H. now inversion H.
    + rewrite E. split.
      * split.
        -- intros [st' H]. now apply take_block_not_null in H.
        -- intros [Hbig|Hall]; [apply Hfail in Hbig; contradiction|].
           rewrite Hall in Es by lia. discriminate.
      * intros st' H. now apply take_block_not_null in H.
Qed.

(** C9, as stated, fails at its last step: in the scenario [buddy_init],
    [buddy_alloc(4096)], [buddy_alloc(4096)], [buddy_free(A0)],
    [buddy_free(A1)], the last call does not leave a free block of order 13:
    it stops at order 20, and the free list of order 13 ends up empty. *)
Lemma scenario_not_order_13 :
  exists st1 st2 r1 r2,
    buddy_alloc 4096 buddy_init = Some (Some 0, st1) /\
    buddy_alloc 4096 st1 = Some (Some 4096, st2) /\
    buddy_free 0 st2 = Some r1 /\
    buddy_free 4096 (fr_state r1) = Some r2 /\
    fr_stop r2 = Some (20, 0) /\
    fr_stop r2 <> Some (13, 0) /\
    ~ In 0 (free_list (fr_state r2) 13).
Proof.
  do 4 eexists. split; [vm_compute; reflexivity|].
  split; [vm_compute; reflexivity|]. split; [vm_compute; reflexivity|].
  split; [vm_compute; reflexivity|]. split; [reflexivity|].
  split; [discriminate|]. simpl. tauto.
Qed.

(** C9, amended (concrete scenario).  After [buddy_init], [buddy_alloc(4096)]
    returns [A0], the address of page 0; a second [buddy_alloc(4096)] returns
    [A1 = A0 + 4096]; [buddy_free(A0)] leaves page 0 as a free block of order
    12, not merged, its buddy being allocated; [buddy_free(A1)] merges pages
    0 and 1 and, the buddies of orders 13 to 19 being free, goes on merging
    up to one free block of order 20 at page 0: the free lists are again
    those that [buddy_init] set up. *)
Theorem concrete_scenario :
  exists st1 st2 r1 r2,
    buddy_alloc 4096 buddy_init = Some (Some (PAGE_TO_ADDR 0), st1) /\
    buddy_alloc 4096 st1 = Some (Some (PAGE_TO_ADDR 0 + 4096), st2) /\
    PAGE_TO_ADDR 0 + 4096 = PAGE_TO_ADDR 1 /\
    buddy_free (PAGE_TO_ADDR 0) st2 = Some r1 /\
    fr_stop r1 = Some (12, 0) /\
    free_list (fr_state r1) 12 = [0] /\
    free_list (fr_state r1) 13 = [2] /\
    buddy_free (PAGE_TO_ADDR 1) (fr_state r1) = Some r2 /\
    fr_stop r2 = Some (MAX_ORDER, 0) /\
    free_area (fr_state r2) = free_area buddy_init.
Proof.
  do 4 eexists. split; [vm_compute; reflexivity|].
  split; [vm_compute; reflexivity|]. split; [reflexivity|].
  split; [vm_compute; reflexivity|]. split; [reflexivity|].
  split; [reflexivity|]. split; [reflexivity|].
  split; [vm_compute; reflexivity|]. split; reflexivity.
Qed.

(** C10 (sizes up to a page).  For every [size <= 2^MIN_ORDER], zero and
    negative sizes included, [get_order] returns [MIN_ORDER]; so in a
    reachable state in which some free list of an order from [MIN_ORDER] to
    [MAX_ORDER] is not empty, [buddy_alloc(size)] does not fail: it returns
    the address of a page whose descriptor it marks with order [MIN_ORDER],
    and it allocates the [2^MIN_ORDER] bytes at that address.  The block is
    page aligned and inside the arena; afterwards it shares no byte with a
    block that is on a free list or with another block in flight, while the
    blocks in flight, this one among them, and the free blocks still tile
    the arena, so nothing but this block has left the free memory; and the
    block is in flight: it can be freed. *)
Theorem alloc_small_sizes size :
  size <= Z.shiftl 1 MIN_ORDER ->
  get_order size = MIN_ORDER /\
  forall st live,
    reachable st live ->
    (exists k, MIN_ORDER <= k <= MAX_ORDER /\ free_list st k <> []) ->
    exists addr st',
      buddy_alloc size st = Some (Some addr, st') /\
      0 <= addr < Z.shiftl 1 MAX_ORDER /\
      option_map order (page_at st' (ADDR_TO_PAGE addr)) = Some MIN_ORDER /\
      addr mod Z.shiftl 1 MIN_ORDER = 0 /\
      addr + Z.shiftl 1 MIN_ORDER <= Z.shiftl 1 MAX_ORDER /\
      (forall k, MIN_ORDER <= k <= MAX_ORDER ->
         ~ In (ADDR_TO_PAGE addr) (free_list st' k)) /\
      (forall a o, In (a, o) (live ++ free_blocks st') ->
         addr + Z.shiftl 1 MIN_ORDER <= a \/ a + Z.shiftl 1 o <= addr) /\
      tiles ((addr, MIN_ORDER) :: live ++ free_blocks st') /\
      reachable st' ((addr, MIN_ORDER) :: live).
Proof.
  change (Z.shiftl 1 MIN_ORDER) with 4096. intros Hsize.
  assert (E : get_order size = MIN_ORDER).
  { pose proof (get_order_cases size). olia. }
  split; [exact E|]. intros st live Hr (k & Hk & Hne).
  pose proof (reachable_inv _ _ Hr) as Hinv.
  destruct (buddy_alloc_spec st live size Hinv)
    as [[_ [E'|Hall]]|(s & p & rest & st' & Hord & Hmax & _ & Hs & Ea & Ht & Hinv')].
  - olia.
  - exfalso. apply Hne. apply Hall. lia.
  - exists (PAGE_TO_ADDR p), st'. split; [exact Ea|].
    assert (Hr' : reachable st' ((PAGE_TO_ADDR p, MIN_ORDER) :: live)).
    { rewrite <- E. eapply reach_alloc; eauto. }
    destruct Ht as (_ & _ & _ & _ & Hp & _).
    rewrite E in Hinv', Hp.
    destruct Hinv' as (_ & _ & _ & Hlive' & Ht).
    destruct (tiles_in_arena _ (PAGE_TO_ADDR p) MIN_ORDER Ht) as [H1 H2];
      [simpl; auto|olia|].
    change (Z.shiftl 1 MIN_ORDER) with 4096 in H2.
    assert (Hapart : forall a o, In (a, o) (live ++ free_blocks st') ->
               PAGE_TO_ADDR p + 4096 <= a \/ a + Z.shiftl 1 o <= PAGE_TO_ADDR p).
    { intros a o Hin.
      assert (Ho : 0 <= o).
      { apply in_app_or in Hin. destruct Hin as [Hin|Hin].
        - destruct (Hlive' a o (or_intror Hin)) as (q & _ & _ & Ho & _). olia.
        - apply in_free_blocks in Hin. olia. }
      change 4096 with (Z.shiftl 1 MIN_ORDER).
      apply apart_of_pointwise; [olia|exact Ho|].
      intros off C1 C2.
      pose proof (tiles_excl _ _ (a, o) off Ht Hin C2). congruence. }
    rewrite ADDR_TO_PAGE_TO_ADDR, Hp.
    split; [change (Z.shiftl 1 MAX_ORDER) with 1048576 in *; lia|].
    split; [reflexivity|].
    split; [unfold PAGE_TO_ADDR; rewrite PAGE_SIZE_eq; apply Z.mod_mul; lia|].
    split; [exact H2|].
    split; [|split; [exact Hapart|split; [exact Ht|exact Hr']]].
    intros j Hj Hin.
    assert (Hb : In (PAGE_TO_ADDR p, j) (live ++ free_blocks st')).
    { apply in_or_app. right. apply in_free_blocks. split; [exact Hj|].
      exists p. auto. }
    pose proof (shiftl_1_pos j ltac:(olia)).
    destruct (Hapart _ _ Hb); lia.
Qed.

Lemma alloc_small_sizes_witness :
  get_order (-7) = MIN_ORDER /\
  exists st live,
    after [Alloc 4096; Alloc 70000; Free 0] = Some (st, live) /\
    exists addr st',
      buddy_alloc (-7) st = Some (Some addr, st') /\
      0 <= addr < Z.shiftl 1 MAX_ORDER /\
      option_map order (page_at st' (ADDR_TO_PAGE addr)) = Some MIN_ORDER /\
      addr mod Z.shiftl 1 MIN_ORDER = 0 /\
      addr + Z.shiftl 1 MIN_ORDER <= Z.shiftl 1 MAX_ORDER /\
      (forall k, MIN_ORDER <= k <= MAX_ORDER ->
         ~ In (ADDR_TO_PAGE addr) (free_list st' k)) /\
      (forall a o, In (a, o) (live ++ free_blocks st') ->
         addr + Z.shiftl 1 MIN_ORDER <= a \/ a + Z.shiftl 1 o <= addr) /\
      tiles ((addr, MIN_ORDER) :: live ++ free_blocks st') /\
      reachable st' ((addr, MIN_ORDER) :: live).
Proof.
  destruct (alloc_small_sizes (-7)) as [E H].
  - vm_compute. discriminate.
  - split; [exact E|].
    destruct (after [Alloc 4096; Alloc 70000; Free 0]) as [[st live]|] eqn:Ea;
      [|vm_compute in Ea; discriminate].
    exists st, live. split; [reflexivity|]. apply (H st live).
    + apply (after_reachable [Alloc 4096; Alloc 70000; Free 0]). exact Ea.
    + exists 17. split; [vm_compute; split; discriminate|].
      vm_compute in Ea. inversion Ea. vm_compute. discriminate.
Defined.

(** * Further properties of the code *)

(** ** [get_order] *)

(** [get_order] answers [-1] exactly for the sizes above [2^MAX_ORDER]; for
    every other size, zero and negative sizes included, it answers the
    smallest order from [MIN_ORDER] to [MAX_ORDER] whose block holds the
    size: the block is large enough and, above [MIN_ORDER], the block of the
    order below is too small. *)
Theorem get_order_smallest x :
  (Z.shiftl 1 MAX_ORDER < x /\ get_order x = -1) \/
  (x <= Z.shiftl 1 MAX_ORDER /\
   MIN_ORDER <= get_order x <= MAX_ORDER /\
   x <= Z.shiftl 1 (get_order x) /\
   (get_order x = MIN_ORDER \/ Z.shiftl 1 (get_order x - 1) < x)).
Proof.
  change (Z.shiftl 1 MAX_ORDER) with 1048576.
  unfold MIN_ORDER, MAX_ORDER.
  destruct (get_order_cases x) as
    [H|[H|[H|[H|[H|[H|[H|[H|[H|H]]]]]]]]]; destruct H as [Hx ->];
    [right|right|right|right|right|right|right|right|right|left];
    try (split; [lia|reflexivity]);
    (split; [lia|]; split; [lia|]; split; [simpl; lia|]);
    try (left; reflexivity); right; simpl; lia.
Qed.

(** At the powers of two: a request of exactly [2^k] bytes gets order [k],
    one byte more gets order [k+1], or no order at all when [k] is
    [MAX_ORDER]. *)
Theorem get_order_power k :
  MIN_ORDER <= k <= MAX_ORDER ->
  get_order (Z.shiftl 1 k) = k /\
  get_order (Z.shiftl 1 k + 1) = (if k <? MAX_ORDER then k + 1 else -1).
Proof.
  intros Hk.
  assert (Hc : k = 12 \/ k = 13 \/ k = 14 \/ k = 15 \/ k = 16 \/ k = 17 \/
               k = 18 \/ k = 19 \/ k = 20) by olia.
  repeat (destruct Hc as [->|Hc]; [split; reflexivity|]).
  subst k; split; reflexivity.
Qed.

Lemma get_order_power_witness :
  get_order (Z.shiftl 1 20) = 20 /\
  get_order (Z.shiftl 1 20 + 1) = (if 20 <? MAX_ORDER then 20 + 1 else -1).
Proof.
  apply (get_order_power 20). vm_compute. split; discriminate.
Defined.

(** A larger request never gets a smaller order, and a request larger than
    one that is too large is too large as well. *)
Theorem get_order_monotone x y :
  x <= y ->
  (get_order y = -1 \/ get_order x <= get_order y) /\
  (get_order x = -1 -> get_order y = -1).
Proof.
  intros Hxy.
  pose proof (get_order_cases x) as Hx. pose proof (get_order_cases y) as Hy.
  split; [|intros E]; lia.
Qed.

Lemma get_order_monotone_witness :
  (get_order 70000 = -1 \/ get_order 5000 <= get_order 70000) /\
  (get_order 5000 = -1 -> get_order 70000 = -1).
Proof.
  apply (get_order_monotone 5000 70000). lia.
Defined.

(** ** The address macros *)

(** [ADDR_TO_PAGE] undoes [PAGE_TO_ADDR], and it maps every address inside a
    page, not only the first one, to that page: the division rounds down.
    [buddy_free] uses its argument through [ADDR_TO_PAGE] only, so it does
    not tell an address inside the first page of a block from the address of
    the block. *)
Theorem free_inside_first_page q off :
  0 <= q -> 0 <= off < PAGE_SIZE ->
  ADDR_TO_PAGE (PAGE_TO_ADDR q + off) = q /\
  forall st, buddy_free (PAGE_TO_ADDR q + off) st = buddy_free (PAGE_TO_ADDR q) st.
Proof.
  intros Hq Hoff.
  assert (E : ADDR_TO_PAGE (PAGE_TO_ADDR q + off) = q).
  { unfold ADDR_TO_PAGE, PAGE_TO_ADDR. rewrite PAGE_SIZE_eq in *.
    rewrite Z.add_comm, Z.div_add by lia.
    rewrite Z.div_small by lia. reflexivity. }
  split; [exact E|]. intros st. unfold buddy_free.
  now rewrite E, ADDR_TO_PAGE_TO_ADDR.
Qed.

Lemma free_inside_first_page_witness :
  ADDR_TO_PAGE (PAGE_TO_ADDR 5 + 4095) = 5 /\
  forall st, buddy_free (PAGE_TO_ADDR 5 + 4095) st = buddy_free (PAGE_TO_ADDR 5) st.
Proof.
  apply (free_inside_first_page 5 4095); [lia|].
  vm_compute. split; [discriminate|reflexivity].
Defined.

(** [BUDDY_ADDR] is its own inverse, and for an offset aligned to [2^o]
    (with [o] a shift count that an [int] allows) it yields the other half of the enclosing block of order [o+1]: the half
    above when the offset is aligned to [2^(o+1)], the half below
    otherwise. *)
Theorem buddy_addr_halves a o :
  0 <= o <= 30 -> 0 <= a -> a mod Z.shiftl 1 o = 0 ->
  BUDDY_ADDR (BUDDY_ADDR a o) o = a /\
  ((a mod Z.shiftl 1 (o + 1) = 0 /\ BUDDY_ADDR a o = a + Z.shiftl 1 o) \/
   (a mod Z.shiftl 1 (o + 1) = Z.shiftl 1 o /\
    BUDDY_ADDR a o = a - Z.shiftl 1 o)).
Proof.
  intros Ho Ha Hal. unfold BUDDY_ADDR. split.
  - rewrite Z.lxor_assoc, Z.lxor_nilpotent. apply Z.lxor_0_r.
  - rewrite !Z.shiftl_1_l in *.
    assert (Hpos : 0 < 2 ^ o) by (apply Z.pow_pos_nonneg; lia).
    replace (2 ^ (o + 1)) with (2 * 2 ^ o)
      by (rewrite Z.pow_add_r by lia; lia).
    apply Z.mod_divide in Hal; [|lia]. destruct Hal as [c ->].
    assert (Ho0 : 0 <= o) by lia.
    assert (Hc : 0 <= c) by nia.
    rewrite lxor_scaled, lxor_one by auto.
    destruct (Z.even c) eqn:Ev.
    + left. apply Z.even_spec in Ev. destruct Ev as [h ->]. split; [|lia].
      replace (2 * h * 2 ^ o) with (h * (2 * 2 ^ o)) by lia.
      apply Z.mod_mul. lia.
    + right.
      assert (O : Z.odd c = true) by (rewrite <- Z.negb_even, Ev; reflexivity).
      apply Z.odd_spec in O. destruct O as [h ->]. split; [|lia].
      replace ((2 * h + 1) * 2 ^ o) with (2 ^ o + h * (2 * 2 ^ o)) by lia.
      rewrite Z.mod_add by lia. apply Z.mod_small. lia.
Qed.

Lemma buddy_addr_halves_witness :
  BUDDY_ADDR (BUDDY_ADDR 12288 12) 12 = 12288 /\
  ((12288 mod Z.shiftl 1 (12 + 1) = 0 /\
    BUDDY_ADDR 12288 12 = 12288 + Z.shiftl 1 12) \/
   (12288 mod Z.shiftl 1 (12 + 1) = Z.shiftl 1 12 /\
    BUDDY_ADDR 12288 12 = 12288 - Z.shiftl 1 12)).
Proof.
  apply (buddy_addr_halves 12288 12); [lia|lia|reflexivity].
Defined.

(** ** Blocks handed out *)

(** A successful [buddy_alloc(size)] hands out a block of
    [2^(get_order size)] bytes, which is at least [size]; the block starts
    at a multiple of its own size, lies inside the arena and shares no byte
    with any block in flight, and its descriptor records its order. *)
Theorem alloc_block_sound st live size addr st' :
  reachable st live ->
  buddy_alloc size st = Some (Some addr, st') ->
  let o := get_order size in
  MIN_ORDER <= o <= MAX_ORDER /\
  size <= Z.shiftl 1 o /\
  addr mod Z.shiftl 1 o = 0 /\
  0 <= addr /\ addr + Z.shiftl 1 o <= Z.shiftl 1 MAX_ORDER /\
  (forall a' o', In (a', o') live ->
     addr + Z.shiftl 1 o <= a' \/ a' + Z.shiftl 1 o' <= addr) /\
  option_map order (page_at st' (ADDR_TO_PAGE addr)) = Some o.
Proof.
  intros Hr E o. pose proof (reachable_inv _ _ Hr) as Hinv.
  destruct (buddy_alloc_spec st live size Hinv)
    as [[E' _]|(s & p & rest & st2 & Hord & Hmax & _ & _ & E' & Ht & Hinv')];
    rewrite E' in E; [discriminate|].
  inversion E; subst addr st2. clear E. fold o in Hord, Ht, Hinv'.
  destruct Hinv' as (_ & _ & _ & Hlive' & Htiles).
  destruct (Hlive' (PAGE_TO_ADDR p) o (or_introl eq_refl))
    as (q & Eq & Hq & Ho & Hqal & Hqpg).
  assert (q = p).
  { rewrite <- (ADDR_TO_PAGE_TO_ADDR q), <- Eq. apply ADDR_TO_PAGE_TO_ADDR. }
  subst q.
  destruct (tiles_in_arena _ (PAGE_TO_ADDR p) o Htiles) as [H0 H1];
    [simpl; auto|olia|].
  split; [lia|]. split; [apply get_order_fits; unfold o in *; olia|].
  split; [apply page_aligned_bytes; auto; lia|].
  split; [auto|]. split; [auto|]. split.
  - intros a' o' Hin.
    destruct (Hlive' a' o' (or_intror Hin)) as (q' & _ & _ & Ho' & _).
    apply apart_of_pointwise; [olia|olia|].
    intros off C1 C2.
    assert (F : covers off (PAGE_TO_ADDR p, o) = false).
    { apply (tiles_excl _ _ (a', o') off Htiles); auto.
      apply in_or_app; auto. }
    congruence.
  - rewrite ADDR_TO_PAGE_TO_ADDR, Hqpg. reflexivity.
Qed.

Lemma alloc_block_sound_witness :
  exists st',
    buddy_alloc 5000 buddy_init = Some (Some 0, st') /\
    let o := get_order 5000 in
    MIN_ORDER <= o <= MAX_ORDER /\
    5000 <= Z.shiftl 1 o /\
    0 mod Z.shiftl 1 o = 0 /\
    0 <= 0 /\ 0 + Z.shiftl 1 o <= Z.shiftl 1 MAX_ORDER /\
    (forall a' o', In (a', o') [] ->
       0 + Z.shiftl 1 o <= a' \/ a' + Z.shiftl 1 o' <= 0) /\
    option_map order (page_at st' (ADDR_TO_PAGE 0)) = Some o.
Proof.
  destruct (buddy_alloc 5000 buddy_init) as [[[addr|] st']|] eqn:E;
    try (vm_compute in E; discriminate).
  assert (addr = 0) by (vm_compute in E; congruence). subst addr.
  exists st'. split; [reflexivity|].
  apply (alloc_block_sound buddy_init [] 5000 0 st').
  - apply reach_init.
  - exact E.
Defined.

(** The blocks in flight never share a page among them, and whatever calls
    came in between, the descriptor of each still records the order the
    block was allocated at, which is what [buddy_free] will read. *)
Theorem live_blocks_sound st live :
  reachable st live ->
  NoDup (map fst live) /\
  (forall a o, In (a, o) live ->
     option_map order (page_at st (ADDR_TO_PAGE a)) = Some o /\
     a mod Z.shiftl 1 o = 0 /\
     forall a' o', In (a', o') live -> (a', o') <> (a, o) ->
       a + Z.shiftl 1 o <= a' \/ a' + Z.shiftl 1 o' <= a).
Proof.
  intros Hr. destruct (reachable_inv _ _ Hr) as (_ & _ & _ & Hlive & Ht).
  assert (Hone : forall off, cover_count off live <= 1).
  { intros off. specialize (Ht off). rewrite cover_count_app in Ht.
    pose proof (cover_count_nonneg off (free_blocks st)).
    pose proof (b2z_range (in_arena off)). lia. }
  split.
  - apply starts_distinct; auto.
    intros [a o] Hin. destruct (Hlive a o Hin) as (_ & _ & _ & Ho & _).
    cbn [snd]. olia.
  - intros a o Hin. destruct (Hlive a o Hin) as (q & -> & Hq & Ho & Hal & Hpg).
    split; [rewrite ADDR_TO_PAGE_TO_ADDR, Hpg; reflexivity|].
    split; [apply page_aligned_bytes; auto; lia|].
    intros a' o' Hin' Hne.
    destruct (Hlive a' o' Hin') as (_ & _ & _ & Ho' & _).
    apply apart_of_pointwise; [olia|olia|].
    intros off C1 C2.
    pose proof (cover_count_two off _ _ live Hin Hin' (not_eq_sym Hne) C1 C2).
    specialize (Hone off). lia.
Qed.

Lemma live_blocks_sound_witness :
  exists st live,
    after [Alloc 4096; Alloc 70000] = Some (st, live) /\
    NoDup (map fst live) /\
    (forall a o, In (a, o) live ->
       option_map order (page_at st (ADDR_TO_PAGE a)) = Some o /\
       a mod Z.shiftl 1 o = 0 /\
       forall a' o', In (a', o') live -> (a', o') <> (a, o) ->
         a + Z.shiftl 1 o <= a' \/ a' + Z.shiftl 1 o' <= a).
Proof.
  destruct (after [Alloc 4096; Alloc 70000]) as [[st live]|] eqn:E;
    [|vm_compute in E; discriminate].
  exists st, live. split; [reflexivity|].
  apply (live_blocks_sound st live).
  apply (after_reachable [Alloc 4096; Alloc 70000]). exact E.
Defined.

(** ** Allocating and freeing in turn *)

(** A block freed right after it was allocated goes back where it came
    from: whether the allocation split a larger block or not, the free lists
    are again exactly those before the allocation.  (The descriptor table is
    not: the orders written during the split stay.) *)
Theorem alloc_free_restores st live size addr st1 :
  reachable st live ->
  buddy_alloc size st = Some (Some addr, st1) ->
  exists r,
    buddy_free addr st1 = Some r /\
    free_area (fr_state r) = free_area st.
Proof.
  intros Hr E. pose proof (reachable_inv _ _ Hr) as Hinv.
  pose proof (reachable_adj _ _ Hr) as Hadj.
  destruct (buddy_alloc_spec st live size Hinv)
    as [[E' _]|(s & p & rest & st2 & Hord & Hmax & Hemp & Hs & E' & Ht & _)];
    rewrite E' in E; [discriminate|].
  inversion E; subst addr st2. clear E.
  assert (Hin : In p (free_list st s)) by (rewrite Hs; simpl; auto).
  destruct (inv_free_block st live s p Hinv ltac:(lia) Hin) as (Hp & Hal & Hfit).
  destruct Ht as (Hwf1 & Hd1 & Hfl1 & _ & Hp1 & _).
  assert (Hchain : forall j, get_order size <= j < s ->
             free_list st1 j = [p + span j]).
  { intros j Hj. rewrite Hfl1 by olia. split_tests; try lia.
    now rewrite Hemp by lia. }
  assert (Hhd : match free_list st1 s with
                | [] => True
                | h :: _ => h <> buddy_index p s
                end).
  { rewrite Hfl1 by olia. rewrite Z.eqb_refl.
    specialize (Hadj s ltac:(lia)). rewrite Hs in Hadj.
    cbn [no_adjacent_buddies] in Hadj. apply Hadj. }
  destruct (buddy_free_lower st1 p (get_order size) s Hwf1 Hd1 Hord Hmax
              Hp Hal Hfit Hp1 Hchain Hhd)
    as (r & Er & _ & _ & Hdr & Hflr & _).
  exists r. split; [exact Er|].
  apply free_area_ext; auto; [apply Hinv|].
  intros j Hj. rewrite Hflr by lia. rewrite !Hfl1 by olia.
  split_tests; try (exfalso; lia); subst; rewrite ?Hs; try reflexivity.
  now rewrite Hemp by lia.
Qed.

Lemma alloc_free_restores_witness :
  exists st1 r,
    buddy_alloc 5000 buddy_init = Some (Some 0, st1) /\
    buddy_free 0 st1 = Some r /\
    free_area (fr_state r) = free_area buddy_init.
Proof.
  destruct (buddy_alloc 5000 buddy_init) as [[[addr|] st1]|] eqn:E;
    try (vm_compute in E; discriminate).
  assert (addr = 0) by (vm_compute in E; congruence). subst addr.
  destruct (alloc_free_restores buddy_init [] 5000 0 st1) as (r & Er & Hr).
  - apply reach_init.
  - exact E.
  - exists st1, r. auto.
Defined.

(** Splitting and merging back to back.  In a reachable state, let
    [buddy_alloc(size)] split a block: the free lists of the orders from
    [get_order size] up to [s-1] are empty and the block [p] comes from the
    supplying order [s].  The call returns the left part [a]; the split
    leaves one right half per order below [s], and for any such order [k] the
    next call [buddy_alloc(size')] with [get_order size' = k] returns the
    right half [b = a + 2^k] made at that order, the buddy of the block of
    order [k] at [a].  Freeing [a] then [b], or [b] then [a], with no other
    call in between, merges the buddies and goes on merging through every
    order up to [s]: the second [buddy_free] stops at order [s] on page [p],
    and the free lists are exactly those of the state before the split. *)
Theorem merge_round_trip st live size size' s p rest :
  reachable st live ->
  MIN_ORDER <= get_order size <= get_order size' ->
  get_order size' < s <= MAX_ORDER ->
  (forall k, get_order size <= k < s -> free_list st k = []) ->
  free_list st s = p :: rest ->
  let a := PAGE_TO_ADDR p in
  let b := a + Z.shiftl 1 (get_order size') in
  exists st1 st2,
    buddy_alloc size st = Some (Some a, st1) /\
    buddy_alloc size' st1 = Some (Some b, st2) /\
    (exists r1 r2,
        buddy_free a st2 = Some r1 /\
        buddy_free b (fr_state r1) = Some r2 /\
        fr_stop r2 = Some (s, p) /\
        free_area (fr_state r2) = free_area st) /\
    (exists r1 r2,
        buddy_free b st2 = Some r1 /\
        buddy_free a (fr_state r1) = Some r2 /\
        fr_stop r2 = Some (s, p) /\
        free_area (fr_state r2) = free_area st).
Proof.
  intros Hr Hord Hk Hemp Hs a b.
  pose proof (reachable_inv _ _ Hr) as Hinv.
  pose proof (reachable_adj _ _ Hr) as Hadj.
  remember (get_order size) as ord eqn:Eord.
  remember (get_order size') as k eqn:Ek.
  assert (Hin : In p (free_list st s)) by (rewrite Hs; simpl; auto).
  destruct (inv_free_block st live s p Hinv ltac:(lia) Hin) as (Hp & Hal & Hfit).
  pose proof (span_pos k ltac:(lia)) as Hsk.
  pose proof (span_pos s ltac:(lia)) as Hss.
  pose proof (span_le (k + 1) s ltac:(lia)) as Hle.
  rewrite span_succ in Hle by lia.
  assert (Eb : b = PAGE_TO_ADDR (p + span k)).
  { unfold b, a, PAGE_TO_ADDR. rewrite block_bytes by lia. lia. }
  (* the first allocation *)
  destruct (buddy_alloc_at st live size s p rest Hinv)
    as (st1 & E1 & T1 & Hinv1); rewrite <- ?Eord; auto; try lia.
  rewrite <- Eord in T1, Hinv1.
  destruct T1 as (Hwf1 & Hd1 & Hfl1 & _ & Hp1 & _).
  assert (Hst1 : forall j, 0 <= j ->
             free_list st1 j =
             if j =? s then rest
             else if (ord <=? j) && (j <? s) then [p + span j]
                  else free_list st j).
  { intros j Hj. rewrite Hfl1 by auto.
    destruct (Z.eqb_spec j s); auto.
    destruct (Z.leb_spec ord j), (Z.ltb_spec j s); cbn [andb]; auto.
    now rewrite Hemp by lia. }
  assert (Hfirst1 : free_list st1 k = [p + span k]).
  { rewrite Hst1 by olia. destruct (Z.eqb_spec k s); [lia|].
    destruct (Z.leb_spec ord k), (Z.ltb_spec k s); try lia. reflexivity. }
  (* the second allocation *)
  destruct (buddy_alloc_at st1 _ size' k (p + span k) [] Hinv1)
    as (st2 & E2 & T2 & _); rewrite <- ?Ek; auto; try lia.
  rewrite <- Ek in T2.
  destruct T2 as (Hwf2 & Hd2 & Hfl2 & _ & Hp2 & Hoth2 & _).
  exists st1, st2. split; [exact E1|]. split; [rewrite Eb; exact E2|].
  rewrite Eb. clear Eb b. unfold a. clear a.
  (* the free lists and the two descriptors after both allocations *)
  assert (Hst2 : forall j, 0 <= j ->
             free_list st2 j =
             if j =? k then [] else free_list st1 j).
  { intros j Hj. rewrite Hfl2 by auto.
    destruct (Z.eqb_spec j k); auto.
    destruct (Z.leb_spec k j), (Z.ltb_spec j k); cbn [andb]; auto; lia. }
  assert (Hempty2 : free_list st2 k = []).
  { rewrite Hst2 by olia. now rewrite Z.eqb_refl. }
  assert (Hchain2 : forall j, ord <= j < s -> j <> k ->
             free_list st2 j = [p + span j]).
  { intros j Hj Hjk. rewrite Hst2, Hst1 by olia.
    destruct (Z.eqb_spec j k); [lia|]. destruct (Z.eqb_spec j s); [lia|].
    destruct (Z.leb_spec ord j), (Z.ltb_spec j s); cbn [andb]; auto; lia. }
  assert (Hs2 : free_list st2 s = rest).
  { rewrite Hst2, Hst1 by olia. destruct (Z.eqb_spec s k); [lia|].
    now rewrite Z.eqb_refl. }
  assert (Hout2 : forall j, 0 <= j -> ~ ord <= j <= s ->
             free_list st2 j = free_list st j).
  { intros j Hj Hout. rewrite Hst2, Hst1 by auto.
    destruct (Z.eqb_spec j k); [lia|]. destruct (Z.eqb_spec j s); [lia|].
    destruct (Z.leb_spec ord j), (Z.ltb_spec j s); cbn [andb]; auto; lia. }
  assert (Hpg2 : page_at st2 p = Some (mk_page ord p (PAGE_TO_ADDR p))).
  { rewrite Hoth2; [exact Hp1|lia|intros j Hj; lia]. }
  assert (Hhead : match rest with [] => True | h :: _ => h <> buddy_index p s end).
  { specialize (Hadj s ltac:(lia)). rewrite Hs in Hadj.
    cbn [no_adjacent_buddies] in Hadj. apply Hadj. }
  assert (Hhead0 : forall x, match free_list st2 k with
                             | [] => True
                             | h :: _ => h <> x
                             end)
    by (intros x; now rewrite Hempty2).
  assert (Halk : p mod span k = 0)
    by (apply (aligned_le p k s); auto; lia).
  assert (Hfinal : forall r2,
             dir_wf (fr_state r2) ->
             (forall j, 0 <= j ->
                free_list (fr_state r2) j =
                if j =? s then p :: rest
                else if (ord <=? j) && (j <? s) then []
                     else free_list st j) ->
             free_area (fr_state r2) = free_area st).
  { intros r2 Hdr Hflr. apply free_area_ext; auto; [apply Hinv|].
    intros j Hj. rewrite Hflr by lia.
    destruct (Z.eqb_spec j s) as [->|Hjs]; [now rewrite Hs|].
    destruct (Z.leb_spec ord j), (Z.ltb_spec j s); cbn [andb]; auto.
    now rewrite Hemp by lia. }
  split.
  - (* [a] first: it merges up to order [k] and waits there for [b] *)
    assert (Hlow : forall j, ord <= j < k -> free_list st2 j = [p + span j])
      by (intros j Hj; apply Hchain2; lia).
    destruct (buddy_free_lower st2 p ord k Hwf2 Hd2 ltac:(lia) ltac:(lia)
                Hp Halk ltac:(lia) Hpg2 Hlow (Hhead0 _))
      as (r1 & Er1 & _ & Hwfr1 & Hdr1 & Hflr1 & _ & Hothr1).
    assert (Hpgb : page_at (fr_state r1) (p + span k) =
                   Some (mk_page k (p + span k) (PAGE_TO_ADDR (p + span k)))).
    { rewrite Hothr1 by lia. exact Hp2. }
    assert (Hfirst : free_list (fr_state r1) k = [p]).
    { rewrite Hflr1 by olia. rewrite Z.eqb_refl. now rewrite Hempty2. }
    assert (Hr1 : forall j, 0 <= j -> k < j ->
               free_list (fr_state r1) j = free_list st2 j).
    { intros j Hj Hkj. rewrite Hflr1 by auto.
      destruct (Z.eqb_spec j k); [lia|].
      destruct (Z.leb_spec ord j), (Z.ltb_spec j k); cbn [andb]; auto; lia. }
    assert (Hchain : forall j, k < j < s ->
               free_list (fr_state r1) j = [p + span j]).
    { intros j Hj. rewrite Hr1 by olia. apply Hchain2; lia. }
    assert (Hhd : match free_list (fr_state r1) s with
                  | [] => True
                  | h :: _ => h <> buddy_index p s
                  end).
    { rewrite Hr1 by olia. rewrite Hs2. exact Hhead. }
    destruct (buddy_free_upper (fr_state r1) p k s Hwfr1 Hdr1 ltac:(lia)
                ltac:(lia) Hp Hal Hfit Hpgb Hfirst Hchain Hhd)
      as (r2 & Er2 & Hstop2 & _ & Hdr2 & Hflr2).
    exists r1, r2. split; [exact Er1|]. split; [exact Er2|].
    split; [exact Hstop2|]. apply Hfinal; auto.
    intros j Hj. rewrite Hflr2 by auto. rewrite !Hflr1 by olia.
    split_tests; try (exfalso; lia); rewrite ?Hs2; try reflexivity;
      apply Hout2; lia.
  - (* [b] first: it stays on the list of order [k] until [a] comes up *)
    assert (Halb : (p + span k) mod span k = 0)
      by (apply aligned_add_span; [lia|exact Halk]).
    assert (Hvac : forall j, k <= j < k ->
               free_list st2 j = [p + span k + span j])
      by (intros j Hj; lia).
    destruct (buddy_free_lower st2 (p + span k) k k Hwf2 Hd2
                ltac:(lia) ltac:(lia) ltac:(lia) Halb ltac:(lia) Hp2
                Hvac (Hhead0 _))
      as (r1 & Er1 & _ & Hwfr1 & Hdr1 & Hflr1 & _ & Hothr1).
    assert (Hr1 : forall j, 0 <= j -> j <> k ->
               free_list (fr_state r1) j = free_list st2 j).
    { intros j Hj Hne. rewrite Hflr1 by auto.
      destruct (Z.eqb_spec j k); [lia|].
      destruct (Z.leb_spec k j), (Z.ltb_spec j k); cbn [andb]; auto; lia. }
    assert (Hpga : page_at (fr_state r1) p =
                   Some (mk_page ord p (PAGE_TO_ADDR p))).
    { rewrite Hothr1 by lia. exact Hpg2. }
    assert (Hchain : forall j, ord <= j < s ->
               free_list (fr_state r1) j = [p + span j]).
    { intros j Hj. destruct (Z.eq_dec j k) as [->|Hjk].
      - rewrite Hflr1 by olia. rewrite Z.eqb_refl. now rewrite Hempty2.
      - rewrite Hr1 by olia. apply Hchain2; lia. }
    assert (Hhd : match free_list (fr_state r1) s with
                  | [] => True
                  | h :: _ => h <> buddy_index p s
                  end).
    { rewrite Hr1 by olia. rewrite Hs2. exact Hhead. }
    destruct (buddy_free_lower (fr_state r1) p ord s Hwfr1 Hdr1 ltac:(lia)
                ltac:(lia) Hp Hal Hfit Hpga Hchain Hhd)
      as (r2 & Er2 & Hstop2 & _ & Hdr2 & Hflr2 & _).
    exists r1, r2. split; [exact Er1|]. split; [exact Er2|].
    split; [exact Hstop2|]. apply Hfinal; auto.
    intros j Hj. rewrite Hflr2 by auto. rewrite !Hflr1 by olia.
    split_tests; try (exfalso; lia); rewrite ?Hs2; try reflexivity;
      apply Hout2; lia.
Qed.

(** An instance: after [buddy_init], [buddy_alloc(4096)] takes page 0 out of
    the whole arena and [buddy_alloc(8192)] takes the right half of order 13,
    pages 2 and 3. *)
Lemma merge_round_trip_witness :
  let a := PAGE_TO_ADDR 0 in
  let b := a + Z.shiftl 1 (get_order 8192) in
  exists st1 st2,
    buddy_alloc 4096 buddy_init = Some (Some a, st1) /\
    buddy_alloc 8192 st1 = Some (Some b, st2) /\
    (exists r1 r2,
        buddy_free a st2 = Some r1 /\
        buddy_free b (fr_state r1) = Some r2 /\
        fr_stop r2 = Some (20, 0) /\
        free_area (fr_state r2) = free_area buddy_init) /\
    (exists r1 r2,
        buddy_free b st2 = Some r1 /\
        buddy_free a (fr_state r1) = Some r2 /\
        fr_stop r2 = Some (20, 0) /\
        free_area (fr_state r2) = free_area buddy_init).
Proof.
  apply (merge_round_trip buddy_init [] 4096 8192 20 0 []).
  - apply reach_init.
  - vm_compute. split; discriminate.
  - vm_compute. split; [reflexivity|discriminate].
  - intros k Hk. change (get_order 4096) with 12 in Hk.
    assert (H : k = 12 \/ k = 13 \/ k = 14 \/ k = 15 \/ k = 16 \/ k = 17 \/
                k = 18 \/ k = 19) by lia.
    repeat (destruct H as [->|H]; [reflexivity|]). subst k; reflexivity.
  - reflexivity.
Defined.

(** What the loop of [buddy_free] puts on a free list is a block aligned for
    its order that contains the block the loop started with. *)
Lemma free_loop_contains :
  forall n i cur temp seen st r k c,
    MIN_ORDER <= i -> pages_wf st -> 0 <= cur -> cur mod span i = 0 ->
    free_loop n i cur cur temp seen st = Some r ->
    fr_stop r = Some (k, c) ->
    i <= k /\ 0 <= c /\ c <= cur /\ cur + span i <= c + span k /\
    c mod span k = 0.
Proof.
  induction n as [|n IH]; intros i cur temp seen st r k c Hi Hwf Hcur Hal E Hstop;
    cbn [free_loop] in E.
  - inversion E; subst r. discriminate.
  - destruct (page_at st cur) as [cp|] eqn:Ecp; cbn [bind] in E; [|discriminate].
    destruct (proj2 Hwf _ _ Ecp) as [_ Emem]. rewrite Emem in E.
    fold (buddy_index cur i) in E.
    pose proof (span_pos i Hi) as Hs.
    destruct (same_page _ (buddy_index cur i)) eqn:Hsame; cbn [negb] in E.
    + destruct (page_at st (buddy_index cur i)) as [bp|] eqn:Ebp;
        cbn [bind] in E; [|discriminate].
      destruct (proj2 Hwf _ _ Ebp) as [Eidx Ebmem]. rewrite Eidx, Ebmem in E.
      pose proof (span_succ i Hi) as Hss.
      destruct (buddy_index_aligned cur i Hi Hcur Hal)
        as [[Hal1 Eb]|(Hb & Hbal1 & Eb)].
      * destruct (Z.ltb_spec (PAGE_TO_ADDR (buddy_index cur i)) (PAGE_TO_ADDR cur))
          as [Hlt|_].
        { unfold PAGE_TO_ADDR in Hlt. rewrite PAGE_SIZE_eq in Hlt. lia. }
        cbn [fst snd] in E.
        assert (Hi1 : MIN_ORDER <= i + 1) by lia.
        destruct (IH _ _ _ _ _ _ _ _ Hi1
                    (pages_wf_set_free_list _ _ _ Hwf) Hcur Hal1 E Hstop)
          as (H1 & H2 & H3 & H4 & H5).
        repeat split; auto; lia.
      * destruct (Z.ltb_spec (PAGE_TO_ADDR (buddy_index cur i)) (PAGE_TO_ADDR cur))
          as [_|Hge].
        2:{ unfold PAGE_TO_ADDR in Hge. rewrite PAGE_SIZE_eq in Hge. lia. }
        cbn [fst snd] in E.
        assert (Hi1 : MIN_ORDER <= i + 1) by lia.
        destruct (IH _ _ _ _ _ _ _ _ Hi1
                    (pages_wf_set_free_list _ _ _ Hwf) Hb Hbal1 E Hstop)
          as (H1 & H2 & H3 & H4 & H5).
        repeat split; auto; lia.
    + destruct (set_order st cur (-1)) as [st1|]; cbn [bind] in E;
        [|discriminate].
      inversion E; subst r. cbn [fr_stop] in Hstop. inversion Hstop; subst k c.
      repeat split; auto; lia.
Qed.

(** The loop of [buddy_free] writes one descriptor only, that of the page it
    puts on a free list. *)
Lemma free_loop_frame :
  forall n i cur temp seen st r k c,
    pages_wf st ->
    free_loop n i cur cur temp seen st = Some r ->
    fr_stop r = Some (k, c) ->
    forall q, q <> c -> page_at (fr_state r) q = page_at st q.
Proof.
  induction n as [|n IH]; intros i cur temp seen st r k c Hwf E Hstop;
    cbn [free_loop] in E.
  - inversion E; subst r. discriminate.
  - destruct (page_at st cur) as [cp|] eqn:Ecp; cbn [bind] in E; [|discriminate].
    destruct (same_page _ _) eqn:Hsame; cbn [negb] in E.
    + destruct (page_at st _) as [bp|] eqn:Ebp in E; cbn [bind] in E;
        [|discriminate].
      destruct (proj2 Hwf _ _ Ebp) as [Eidx _]. rewrite Eidx in E.
      destruct (memory bp <? memory cp); cbn [fst snd] in E;
        intros q Hq;
        rewrite (IH _ _ _ _ _ _ _ _ (pages_wf_set_free_list _ _ _ Hwf) E Hstop q Hq);
        apply page_at_set_free_list.
    + destruct (page_at_range _ _ _ Ecp) as [Hc0 Hc1].
      destruct (set_order_spec st cur (-1) Hwf) as (st1 & E1 & _ & _ & _ & Hoth).
      { destruct Hwf as [Hlen _]. lia. }
      rewrite E1 in E; cbn [bind] in E.
      inversion E; subst r. cbn [fr_stop] in Hstop. inversion Hstop; subst k c.
      intros q Hq. cbn [fr_state]. unfold add_free.
      rewrite page_at_set_free_list. auto.
Qed.

(** A valid [buddy_free] puts on a free list a block that contains the block
    freed: it starts at a multiple of its size at or below the address
    freed and ends at or above the end of the freed block.  When no merge
    took place (the order is unchanged) it is the freed block itself. *)
Theorem free_block_contains st live addr o :
  reachable st live -> In (addr, o) live ->
  exists r k c,
    buddy_free addr st = Some r /\ fr_stop r = Some (k, c) /\
    o <= k <= MAX_ORDER /\
    In c (free_list (fr_state r) k) /\
    PAGE_TO_ADDR c mod Z.shiftl 1 k = 0 /\
    PAGE_TO_ADDR c <= addr /\
    addr + Z.shiftl 1 o <= PAGE_TO_ADDR c + Z.shiftl 1 k /\
    (k = o -> PAGE_TO_ADDR c = addr).
Proof.
  intros Hr Hin. pose proof (reachable_inv _ _ Hr) as Hinv.
  destruct (buddy_free_spec st live addr o Hinv Hin)
    as (r & E & k & c & Hstop & Hk & _ & (rest & Hhead) & _).
  exists r, k, c. split; [exact E|]. split; [exact Hstop|].
  split; [auto|]. split; [rewrite Hhead; simpl; auto|].
  destruct Hinv as (Hwf & _ & _ & Hlive & _).
  destruct (Hlive addr o Hin) as (q & -> & Hq & Ho & Hqal & Hqpg).
  unfold buddy_free in E. rewrite ADDR_TO_PAGE_TO_ADDR, Hqpg in E.
  cbn [bind order index] in E.
  destruct (Z.ltb_spec o MIN_ORDER); [lia|].
  destruct (free_loop_contains _ _ _ _ _ _ _ _ _ (proj1 Ho) Hwf Hq Hqal E Hstop)
    as (H1 & H2 & H3 & H4 & H5).
  pose proof (span_pos o (proj1 Ho)).
  split; [apply page_aligned_bytes; auto; lia|].
  rewrite !block_bytes by lia. unfold PAGE_TO_ADDR. rewrite PAGE_SIZE_eq.
  split; [lia|]. split; [lia|].
  intros ->. lia.
Qed.

Lemma free_block_contains_witness :
  exists st r k c,
    after [Alloc 4096] = Some (st, [(PAGE_TO_ADDR 0, 12)]) /\
    buddy_free (PAGE_TO_ADDR 0) st = Some r /\ fr_stop r = Some (k, c) /\
    12 <= k <= MAX_ORDER /\
    In c (free_list (fr_state r) k) /\
    PAGE_TO_ADDR c mod Z.shiftl 1 k = 0 /\
    PAGE_TO_ADDR c <= PAGE_TO_ADDR 0 /\
    PAGE_TO_ADDR 0 + Z.shiftl 1 12 <= PAGE_TO_ADDR c + Z.shiftl 1 k /\
    (k = 12 -> PAGE_TO_ADDR c = PAGE_TO_ADDR 0).
Proof.
  destruct after_alloc_page as [st E].
  destruct (free_block_contains st [(PAGE_TO_ADDR 0, 12)] (PAGE_TO_ADDR 0) 12)
    as (r & k & c & H).
  - apply (after_reachable [Alloc 4096]). exact E.
  - simpl. auto.
  - exists st, r, k, c. split; [exact E|exact H].
Defined.

(** The block that a valid [buddy_free] puts on the free list of order [k]
    is the one the next [buddy_alloc] of that order returns: a block freed
    without a merge is handed out again at the same address by the next
    request of its size. *)
Theorem free_alloc_reuses st live addr o size :
  reachable st live -> In (addr, o) live ->
  exists r k c,
    buddy_free addr st = Some r /\ fr_stop r = Some (k, c) /\
    (get_order size = k ->
     exists st', buddy_alloc size (fr_state r) = Some (Some (PAGE_TO_ADDR c), st')).
Proof.
  intros Hr Hin. pose proof (reachable_inv _ _ Hr) as Hinv.
  destruct (buddy_free_spec st live addr o Hinv Hin)
    as (r & E & k & c & Hstop & Hk & Hinv' & (rest & Hhead) & _).
  exists r, k, c. split; [exact E|]. split; [exact Hstop|].
  intros Ek.
  destruct (Hinv) as (_ & _ & _ & Hlive & _).
  destruct (Hlive addr o Hin) as (_ & _ & _ & Ho & _).
  destruct (buddy_alloc_at (fr_state r) _ size k c rest Hinv')
    as (st' & E' & _); rewrite ?Ek; auto; try lia.
  eauto.
Qed.

Lemma free_alloc_reuses_witness :
  exists st r k c,
    after [Alloc 4096; Alloc 4096] = Some (st, [(4096, 12); (0, 12)]) /\
    buddy_free 0 st = Some r /\ fr_stop r = Some (k, c) /\
    (get_order 100 = k ->
     exists st', buddy_alloc 100 (fr_state r) = Some (Some (PAGE_TO_ADDR c), st')).
Proof.
  destruct (after [Alloc 4096; Alloc 4096]) as [[st live]|] eqn:E;
    [|vm_compute in E; discriminate].
  assert (El : live = [(4096, 12); (0, 12)]) by (vm_compute in E; congruence).
  subst live.
  destruct (free_alloc_reuses st [(4096, 12); (0, 12)] 0 12 100) as (r & k & c & H).
  - apply (after_reachable [Alloc 4096; Alloc 4096]). exact E.
  - simpl. auto.
  - exists st, r, k, c. split; [reflexivity|exact H].
Defined.

(** ** Freeing the same address twice *)

(** An aligned block that shares a page with a larger aligned block lies
    inside it. *)
Lemma aligned_block_contains j k m c x :
  MIN_ORDER <= j <= k ->
  m mod span j = 0 -> c mod span k = 0 ->
  c <= x < c + span k -> m <= x < m + span j ->
  c <= m /\ m + span j <= c + span k.
Proof.
  intros Hjk Hm Hc Hxc Hxm.
  pose proof (span_pos j (proj1 Hjk)) as Hsj.
  pose proof (span_pos k ltac:(lia)) as Hsk.
  assert (Hcj : c mod span j = 0) by (apply (aligned_le c j k); auto).
  assert (Hkj : span k mod span j = 0).
  { apply (aligned_le (span k) j k); auto. apply Z.mod_same. lia. }
  apply Z.mod_divide in Hm; [|lia]. apply Z.mod_divide in Hcj; [|lia].
  apply Z.mod_divide in Hkj; [|lia].
  destruct Hm as [u Hu]. destruct Hcj as [w Hw]. destruct Hkj as [e He].
  rewrite He in *. subst m c.
  assert (w < u + 1) by nia. assert (u < w + e) by nia.
  split; nia.
Qed.

(** [buddy_free] does not notice a second free of the same address.  After
    a valid free, either the page freed heads the block that went on the
    free list, its order field is [-1] and freeing the address again is
    undefined (a shift by a negative count); or the block was merged into a
    buddy below it, the descriptor of the page still holds the old order,
    and freeing the address again runs and puts the page on the free list
    of that order although it lies inside the larger free block: two free
    blocks then share memory. *)
Theorem double_free st live addr o :
  reachable st live -> In (addr, o) live ->
  exists r k c,
    buddy_free addr st = Some r /\ fr_stop r = Some (k, c) /\
    (PAGE_TO_ADDR c = addr -> buddy_free addr (fr_state r) = None) /\
    (PAGE_TO_ADDR c <> addr ->
     exists r2,
       buddy_free addr (fr_state r) = Some r2 /\
       fr_stop r2 = Some (o, ADDR_TO_PAGE addr) /\
       In (ADDR_TO_PAGE addr) (free_list (fr_state r2) o) /\
       In c (free_list (fr_state r2) k) /\
       o < k /\ PAGE_TO_ADDR c < addr /\
       addr + Z.shiftl 1 o <= PAGE_TO_ADDR c + Z.shiftl 1 k).
Proof.
  intros Hr Hin. pose proof (reachable_inv _ _ Hr) as Hinv.
  destruct (buddy_free_spec st live addr o Hinv Hin)
    as (r & E & k & c & Hstop & Hk & Hinv' & (rest & Hhead) & Hpgc & _).
  exists r, k, c. split; [exact E|]. split; [exact Hstop|].
  destruct Hinv as (Hwf & _ & _ & Hlive & _).
  destruct (Hlive addr o Hin) as (q & -> & Hq & Ho & Hqal & Hqpg).
  rewrite ADDR_TO_PAGE_TO_ADDR.
  pose proof E as E0.
  unfold buddy_free in E0. rewrite ADDR_TO_PAGE_TO_ADDR, Hqpg in E0.
  cbn [bind order index] in E0.
  destruct (Z.ltb_spec o MIN_ORDER); [lia|].
  destruct (free_loop_contains _ _ _ _ _ _ _ _ _ (proj1 Ho) Hwf Hq Hqal E0 Hstop)
    as (_ & Hc0 & Hcq & Hend & Hcal).
  pose proof (free_loop_frame _ _ _ _ _ _ _ _ _ Hwf E0 Hstop) as Hframe.
  pose proof (span_pos o (proj1 Ho)) as Hso.
  split.
  - intros Eaddr.
    assert (c = q).
    { rewrite <- (ADDR_TO_PAGE_TO_ADDR c), Eaddr. apply ADDR_TO_PAGE_TO_ADDR. }
    subst c. unfold buddy_free. rewrite ADDR_TO_PAGE_TO_ADDR, Hpgc.
    reflexivity.
  - intros Hne. assert (Hcq' : c <> q) by congruence.
    assert (Hok : o < k).
    { destruct (Z.eq_dec o k) as [->|]; [lia|lia]. }
    destruct Hinv' as (Hwf' & Hd' & _ & _ & Ht').
    (* the buddy of the page lies inside the free block, hence on no list *)
    assert (Hb : c <= buddy_index q o < c + span k).
    { assert (Hpar : exists m, m mod span (o + 1) = 0 /\
                               m <= q < m + span (o + 1) /\
                               m <= buddy_index q o < m + span (o + 1)).
      { rewrite span_succ by lia.
        destruct (buddy_index_aligned q o (proj1 Ho) Hq Hqal)
          as [[Hal1 Eb]|(Hb0 & Hbal1 & Eb)].
        - exists q. rewrite span_succ in Hal1 by lia. lia.
        - exists (buddy_index q o). rewrite span_succ in Hbal1 by lia. lia. }
      destruct Hpar as (m & Hm & Hmq & Hmb).
      destruct (aligned_block_contains (o + 1) k m c q) as [H1 H2];
        auto; lia. }
    assert (Hnot : ~ In (buddy_index q o) (free_list (fr_state r) o)).
    { intros Hbin.
      assert (H2 : 2 <= cover_count (PAGE_TO_ADDR (buddy_index q o))
                          (free_blocks (fr_state r))).
      { apply (cover_count_two _ (PAGE_TO_ADDR (buddy_index q o), o)
                 (PAGE_TO_ADDR c, k)).
        - apply in_free_blocks. split; [lia|]. eauto.
        - apply in_free_blocks. split; [lia|]. exists c. rewrite Hhead.
          simpl; auto.
        - intros Heq. inversion Heq. lia.
        - apply covers_page; lia.
        - apply covers_page; lia. }
      specialize (Ht' (PAGE_TO_ADDR (buddy_index q o))).
      rewrite cover_count_app in Ht'.
      pose proof (cover_count_nonneg (PAGE_TO_ADDR (buddy_index q o))
                    (remove_block (PAGE_TO_ADDR q, o) live)).
      pose proof (b2z_range (in_arena (PAGE_TO_ADDR (buddy_index q o)))).
      lia. }
    assert (Hpgq : page_at (fr_state r) q = Some (mk_page o q (PAGE_TO_ADDR q))).
    { rewrite Hframe by auto. exact Hqpg. }
    unfold buddy_free. rewrite ADDR_TO_PAGE_TO_ADDR, Hpgq.
    cbn [bind order index].
    destruct (Z.ltb_spec o MIN_ORDER); [lia|].
    replace (Z.to_nat (MAX_ORDER + 1 - o))
      with (S (Z.to_nat (MAX_ORDER - o))) by lia.
    cbn [free_loop]. rewrite Hpgq; cbn [bind memory].
    fold (buddy_index q o).
    assert (Hsame : same_page
              (match free_list (fr_state r) o with
               | [] => None
               | first :: _ => Some first
               end) (buddy_index q o) = false).
    { destruct (free_list (fr_state r) o) as [|h t]; [reflexivity|].
      cbn [same_page]. apply Z.eqb_neq. intros ->. apply Hnot. simpl; auto. }
    rewrite Hsame; cbn [negb].
    assert (Hqr : 0 <= q < N_PAGES).
    { apply page_at_range in Hpgq. destruct Hwf' as [Hlen _]. lia. }
    destruct (set_order_spec (fr_state r) q (-1) Hwf' Hqr)
      as (st1 & E1 & Hfa1 & _).
    rewrite E1; cbn [bind]. eexists. split; [reflexivity|].
    cbn [fr_stop fr_state].
    assert (Hd1 : dir_wf st1) by (unfold dir_wf; now rewrite Hfa1).
    assert (Hfl1 : forall j, free_list st1 j = free_list (fr_state r) j).
    { intros j. unfold free_list. now rewrite Hfa1. }
    split; [reflexivity|]. split; [|split].
    + unfold add_free, list_add. rewrite free_list_set_eq by (auto; olia).
      simpl; auto.
    + unfold add_free. rewrite free_list_set_ne by olia.
      rewrite Hfl1, Hhead. simpl; auto.
    + split; [lia|]. rewrite !block_bytes by lia.
      unfold PAGE_TO_ADDR. rewrite PAGE_SIZE_eq. lia.
Qed.

Lemma double_free_witness :
  exists st r k c,
    after [Alloc 4096; Alloc 4096; Free 0] = Some (st, [(4096, 12)]) /\
    buddy_free 4096 st = Some r /\ fr_stop r = Some (k, c) /\
    (PAGE_TO_ADDR c = 4096 -> buddy_free 4096 (fr_state r) = None) /\
    (PAGE_TO_ADDR c <> 4096 ->
     exists r2,
       buddy_free 4096 (fr_state r) = Some r2 /\
       fr_stop r2 = Some (12, ADDR_TO_PAGE 4096) /\
       In (ADDR_TO_PAGE 4096) (free_list (fr_state r2) 12) /\
       In c (free_list (fr_state r2) k) /\
       12 < k /\ PAGE_TO_ADDR c < 4096 /\
       4096 + Z.shiftl 1 12 <= PAGE_TO_ADDR c + Z.shiftl 1 k).
Proof.
  destruct (after [Alloc 4096; Alloc 4096; Free 0]) as [[st live]|] eqn:E;
    [|vm_compute in E; discriminate].
  assert (El : live = [(4096, 12)]) by (vm_compute in E; congruence).
  subst live.
  destruct (double_free st [(4096, 12)] 4096 12) as (r & k & c & H).
  - apply (after_reachable [Alloc 4096; Alloc 4096; Free 0]). exact E.
  - simpl. auto.
  - exists st, r, k, c. split; [reflexivity|exact H].
Defined.

(** ** [buddy_dump] and the amount of memory *)

Lemma sum_below_ext f g n :
  (forall i, f i = g i) -> sum_below f n = sum_below g n.
Proof.
  intros H. induction n as [|n IH]; cbn [sum_below]; [reflexivity|].
  now rewrite IH, H.
Qed.

Lemma sum_below_add f g n :
  sum_below (fun i => f i + g i) n = sum_below f n + sum_below g n.
Proof.
  induction n as [|n IH]; cbn [sum_below]; [reflexivity|]. rewrite IH. lia.
Qed.

(** The bytes below [n] of a block that starts at [a] and is [len] long. *)
Lemma sum_below_interval a len n :
  0 <= a -> 0 <= len ->
  sum_below (fun off => Z.b2z ((a <=? off) && (off <? a + len))) n =
  Z.max 0 (Z.min (a + len) (Z.of_nat n) - a).
Proof.
  intros Ha Hlen. induction n as [|n IH]; cbn [sum_below].
  - change (Z.of_nat 0) with 0. lia.
  - rewrite IH. rewrite Nat2Z.inj_succ.
    destruct (Z.leb_spec a (Z.of_nat n)), (Z.ltb_spec (Z.of_nat n) (a + len));
      cbn [andb Z.b2z]; lia.
Qed.

Lemma sum_below_cover bs n :
  (forall b, In b bs ->
     0 <= fst b /\ 0 <= snd b /\
     fst b + Z.shiftl 1 (snd b) <= Z.of_nat n) ->
  sum_below (fun off => cover_count off bs) n = total_bytes bs.
Proof.
  induction bs as [|b bs IH]; intros H.
  - change (total_bytes []) with 0. clear H.
    induction n as [|n IHn]; cbn [sum_below]; [reflexivity|].
    rewrite IHn. reflexivity.
  - rewrite (sum_below_ext _
               (fun off => Z.b2z (covers off b) + cover_count off bs))
      by (intros; apply cover_count_cons).
    rewrite sum_below_add, IH by (intros c Hc; apply H; right; exact Hc).
    destruct (H b (or_introl eq_refl)) as (Ha & Ho & Hend).
    pose proof (shiftl_1_pos _ Ho).
    unfold covers. rewrite sum_below_interval by lia.
    change (total_bytes (b :: bs))
      with (Z.shiftl 1 (snd b) + total_bytes bs). lia.
Qed.

(** Blocks that tile the arena add up to its size. *)
Lemma tiles_total_bytes bs :
  tiles bs -> (forall b, In b bs -> 0 <= snd b) ->
  total_bytes bs = Z.shiftl 1 MAX_ORDER.
Proof.
  intros Ht Hord.
  remember (Z.to_nat (Z.shiftl 1 MAX_ORDER)) as n eqn:En.
  assert (Hn : Z.of_nat n = Z.shiftl 1 MAX_ORDER).
  { subst n. apply Z2Nat.id. pose proof (shiftl_1_pos MAX_ORDER). olia. }
  rewrite <- (sum_below_cover bs n).
  - rewrite (sum_below_ext _ (fun off => Z.b2z (in_arena off))) by exact Ht.
    unfold in_arena.
    pose proof (sum_below_interval 0 (Z.shiftl 1 MAX_ORDER) n) as Hs.
    cbn [Z.add] in Hs. rewrite Hs; [|lia|rewrite <- Hn; lia]. lia.
  - intros [a o] Hin. cbn [fst snd]. pose proof (Hord _ Hin) as Ho.
    cbn [snd] in Ho.
    destruct (tiles_in_arena bs a o Ht Hin Ho). rewrite Hn. lia.
Qed.

Lemma total_bytes_app bs1 bs2 :
  total_bytes (bs1 ++ bs2) = total_bytes bs1 + total_bytes bs2.
Proof.
  induction bs1 as [|b bs IH]; [reflexivity|].
  rewrite <- app_comm_cons.
  change (total_bytes (b :: bs ++ bs2))
    with (Z.shiftl 1 (snd b) + total_bytes (bs ++ bs2)).
  change (total_bytes (b :: bs)) with (Z.shiftl 1 (snd b) + total_bytes bs).
  rewrite IH. lia.
Qed.

Lemma total_bytes_blocks_of k l :
  total_bytes (blocks_of k l) = Z.of_nat (length l) * Z.shiftl 1 k.
Proof.
  induction l as [|p l IH]; [reflexivity|].
  change (total_bytes (blocks_of k (p :: l)))
    with (Z.shiftl 1 k + total_bytes (blocks_of k l)).
  rewrite IH. cbn [length]. rewrite Nat2Z.inj_succ. lia.
Qed.

(** The block sizes that the dump prints are exact: from order 10 on,
    [(1 << order) / 1024] loses nothing. *)
Lemma kilobytes_exact k :
  10 <= k -> Z.shiftl 1 k / 1024 * 1024 = Z.shiftl 1 k.
Proof.
  intros Hk. rewrite Z.shiftl_1_l.
  replace k with (k - 10 + 10) at 1 by lia.
  rewrite Z.pow_add_r by lia. change (2 ^ 10) with 1024.
  rewrite Z.div_mul by lia.
  replace k with (k - 10 + 10) at 2 by lia.
  rewrite Z.pow_add_r by lia. reflexivity.
Qed.

Lemma dumped_bytes_free st ks :
  (forall k, In k ks -> 10 <= k) ->
  dumped_bytes (map (dump_entry st) ks) =
  total_bytes (flat_map (fun k => blocks_of k (free_list st k)) ks).
Proof.
  induction ks as [|k ks IH]; intros H; [reflexivity|].
  cbn [map flat_map]. rewrite total_bytes_app, total_bytes_blocks_of.
  rewrite <- IH by (intros j Hj; apply H; right; exact Hj).
  change (dumped_bytes (dump_entry st k :: map (dump_entry st) ks))
    with (fst (dump_entry st k) * (snd (dump_entry st k) * 1024)
          + dumped_bytes (map (dump_entry st) ks)).
  unfold dump_entry at 1 2. cbn [fst snd].
  rewrite kilobytes_exact by (apply H; left; reflexivity). reflexivity.
Qed.

(** The dump accounts for all the memory that is not in flight: in every
    reachable state the free bytes it reports (count times block size,
    summed over the orders) and the bytes of the blocks in flight add up to
    the [2^MAX_ORDER] bytes of the arena. *)
Theorem dump_accounts st live :
  reachable st live ->
  dumped_bytes (dump_entries st) + total_bytes live = Z.shiftl 1 MAX_ORDER.
Proof.
  intros Hr. destruct (reachable_inv _ _ Hr) as (_ & _ & _ & Hlive & Ht).
  unfold dump_entries. rewrite dumped_bytes_free.
  - fold (free_blocks st). rewrite Z.add_comm, <- total_bytes_app.
    apply tiles_total_bytes; auto.
    intros [a o] Hin. cbn [snd]. apply in_app_or in Hin. destruct Hin as [Hin|Hin].
    + destruct (Hlive a o Hin) as (_ & _ & _ & Ho & _). olia.
    + apply in_free_blocks in Hin. olia.
  - intros k Hk. apply order_range_spec in Hk. olia.
Qed.

Lemma dump_accounts_witness :
  exists st live,
    after [Alloc 4096; Alloc 70000] = Some (st, live) /\
    dumped_bytes (dump_entries st) + total_bytes live = Z.shiftl 1 MAX_ORDER.
Proof.
  destruct (after [Alloc 4096; Alloc 70000]) as [[st live]|] eqn:E;
    [|vm_compute in E; discriminate].
  exists st, live. split; [reflexivity|].
  apply (dump_accounts st live).
  apply (after_reachable [Alloc 4096; Alloc 70000]). exact E.
Defined.

Lemma inv_total_bytes st live :
  inv st live ->
  total_bytes (free_blocks st) + total_bytes live = Z.shiftl 1 MAX_ORDER.
Proof.
  intros (_ & _ & _ & Hlive & Ht).
  rewrite Z.add_comm, <- total_bytes_app. apply tiles_total_bytes; auto.
  intros [a o] Hin. cbn [snd]. apply in_app_or in Hin. destruct Hin as [Hin|Hin].
  - destruct (Hlive a o Hin) as (_ & _ & _ & Ho & _). olia.
  - apply in_free_blocks in Hin. olia.
Qed.

Lemma dumped_bytes_free_blocks st :
  dumped_bytes (dump_entries st) = total_bytes (free_blocks st).
Proof.
  unfold dump_entries, free_blocks. apply dumped_bytes_free.
  intros k Hk. apply order_range_spec in Hk. olia.
Qed.

Lemma free_bytes_zero_iff st :
  total_bytes (free_blocks st) = 0 <->
  forall k, MIN_ORDER <= k <= MAX_ORDER -> free_list st k = [].
Proof.
  unfold free_blocks, order_range. cbn [flat_map].
  rewrite !total_bytes_app, !total_bytes_blocks_of.
  change (total_bytes []) with 0.
  repeat match goal with
         | |- context [Z.shiftl 1 ?k] =>
             let v := eval vm_compute in (Z.shiftl 1 k) in
             change (Z.shiftl 1 k) with v
         end.
  split.
  - intros H0 k Hk.
    assert (Hc : k = 12 \/ k = 13 \/ k = 14 \/ k = 15 \/ k = 16 \/ k = 17 \/
                 k = 18 \/ k = 19 \/ k = 20) by olia.
    assert (L : forall l : list Z, Z.of_nat (length l) = 0 -> l = []).
    { intros [|x l] Hl; [reflexivity|]. cbn [length] in Hl. lia. }
    repeat (destruct Hc as [->|Hc]; [apply L; lia|]).
    subst k. apply L; lia.
  - intros Hall.
    rewrite !Hall by (vm_compute; split; discriminate).
    reflexivity.
Qed.

Lemma total_bytes_nonneg bs : 0 <= total_bytes bs.
Proof.
  induction bs as [|b bs IH]; [simpl; lia|].
  change (total_bytes (b :: bs)) with (Z.shiftl 1 (snd b) + total_bytes bs).
  pose proof (Z.shiftl_nonneg 1 (snd b)). lia.
Qed.

Lemma page_alloc_full st live size :
  inv st live -> get_order size = MIN_ORDER ->
  ((exists st', buddy_alloc size st = Some (None, st')) <->
   total_bytes live = Z.shiftl 1 MAX_ORDER).
Proof.
  intros Hinv Eo.
  pose proof (inv_total_bytes st live Hinv) as Hacc.
  pose proof (free_bytes_zero_iff st) as Hfb.
  destruct (buddy_alloc_spec st live size Hinv)
    as [[E [E'|Hall]]|(s & p & rest & st' & Hord & Hmax & _ & Hs & Ea & _)].
  - olia.
  - rewrite Eo in Hall. split; [intros _|eauto].
    pose proof (proj2 Hfb Hall). lia.
  - split.
    + intros [st0 E0]. rewrite Ea in E0. discriminate.
    + intros Hfull. exfalso.
      assert (H0 : total_bytes (free_blocks st) = 0) by lia.
      pose proof (proj1 Hfb H0) as Hall.
      rewrite Hall in Hs by lia. discriminate.
Qed.

Lemma get_order_page size : size <= PAGE_SIZE -> get_order size = MIN_ORDER.
Proof.
  rewrite PAGE_SIZE_eq. intros H. pose proof (get_order_cases size). olia.
Qed.

(** A request of at most one page fails only when nothing is left: in a
    reachable state [buddy_alloc(size)] with [size <= 2^MIN_ORDER] returns
    the null pointer exactly when the blocks in flight take up the whole
    arena, however the free memory is scattered. *)
Theorem page_alloc_fails_iff_full st live size :
  reachable st live -> size <= PAGE_SIZE ->
  ((exists st', buddy_alloc size st = Some (None, st')) <->
   total_bytes live = Z.shiftl 1 MAX_ORDER).
Proof.
  intros Hr Hsize. apply page_alloc_full.
  - apply reachable_inv; exact Hr.
  - apply get_order_page; exact Hsize.
Qed.

Lemma page_alloc_fails_iff_full_witness :
  (exists st', buddy_alloc 1 buddy_init = Some (None, st')) <->
  total_bytes [] = Z.shiftl 1 MAX_ORDER.
Proof.
  apply (page_alloc_fails_iff_full buddy_init [] 1).
  - apply reach_init.
  - vm_compute. discriminate.
Defined.

(** Each call moves exactly the bytes of one block between the dump and the
    client: a successful [buddy_alloc(size)] lowers the free bytes that the
    dump reports by [2^(get_order size)], a failed one leaves them, and a
    valid [buddy_free] of a block of order [o] raises them by [2^o],
    whatever splits or merges took place. *)
Theorem dump_tracks_calls st live :
  reachable st live ->
  (forall size res st',
     buddy_alloc size st = Some (res, st') ->
     dumped_bytes (dump_entries st') =
     dumped_bytes (dump_entries st) -
     match res with
     | Some _ => Z.shiftl 1 (get_order size)
     | None => 0
     end) /\
  (forall addr o, In (addr, o) live ->
     exists r,
       buddy_free addr st = Some r /\
       dumped_bytes (dump_entries (fr_state r)) =
       dumped_bytes (dump_entries st) + Z.shiftl 1 o).
Proof.
  intros Hr. pose proof (reachable_inv _ _ Hr) as Hinv.
  pose proof (inv_total_bytes st live Hinv) as Hacc.
  split.
  - intros size res st' E. rewrite !dumped_bytes_free_blocks.
    destruct (buddy_alloc_spec st live size Hinv)
      as [[E' _]|(s & p & rest & st2 & _ & _ & _ & _ & E' & _ & Hinv')];
      rewrite E' in E; inversion E; subst res st'; [lia|].
    pose proof (inv_total_bytes _ _ Hinv') as Hacc'.
    change (total_bytes ((PAGE_TO_ADDR p, get_order size) :: live))
      with (Z.shiftl 1 (get_order size) + total_bytes live) in Hacc'.
    lia.
  - intros addr o Hin.
    destruct (buddy_free_spec st live addr o Hinv Hin)
      as (r & E & k & c & _ & _ & Hinv' & _).
    exists r. split; [exact E|]. rewrite !dumped_bytes_free_blocks.
    pose proof (inv_total_bytes _ _ Hinv') as Hacc'.
    assert (Hrem : total_bytes live =
                   Z.shiftl 1 o + total_bytes (remove_block (addr, o) live)).
    { clear - Hin. induction live as [|b live IH]; [simpl in Hin; tauto|].
      cbn [remove_block]. destruct (block_eq_dec b (addr, o)) as [->|Hne].
      - reflexivity.
      - destruct Hin as [Heq|Hin]; [congruence|].
        change (total_bytes (b :: live))
          with (Z.shiftl 1 (snd b) + total_bytes live).
        change (total_bytes (b :: remove_block (addr, o) live))
          with (Z.shiftl 1 (snd b) + total_bytes (remove_block (addr, o) live)).
        rewrite (IH Hin). lia. }
    lia.
Qed.

Lemma dump_tracks_calls_witness :
  exists st,
    after [Alloc 4096] = Some (st, [(PAGE_TO_ADDR 0, 12)]) /\
    (forall size res st',
       buddy_alloc size st = Some (res, st') ->
       dumped_bytes (dump_entries st') =
       dumped_bytes (dump_entries st) -
       match res with
       | Some _ => Z.shiftl 1 (get_order size)
       | None => 0
       end) /\
    (forall addr o, In (addr, o) [(PAGE_TO_ADDR 0, 12)] ->
       exists r,
         buddy_free addr st = Some r /\
         dumped_bytes (dump_entries (fr_state r)) =
         dumped_bytes (dump_entries st) + Z.shiftl 1 o).
Proof.
  destruct after_alloc_page as [st E].
  exists st. split; [exact E|].
  apply (dump_tracks_calls st [(PAGE_TO_ADDR 0, 12)]).
  apply (after_reachable [Alloc 4096]). exact E.
Defined.

(** ** The free lists *)

(** In every reachable state the free lists are sound: no page is listed
    twice, on one list or on two, and every block listed at order [k] starts
    at a multiple of [2^k] bytes and lies inside the arena. *)
Theorem free_lists_sound st live :
  reachable st live ->
  NoDup (flat_map (free_list st) order_range) /\
  (forall k p, MIN_ORDER <= k <= MAX_ORDER -> In p (free_list st k) ->
     PAGE_TO_ADDR p mod Z.shiftl 1 k = 0 /\
     0 <= PAGE_TO_ADDR p /\
     PAGE_TO_ADDR p + Z.shiftl 1 k <= Z.shiftl 1 MAX_ORDER).
Proof.
  intros Hr. pose proof (reachable_inv _ _ Hr) as Hinv. split.
  - assert (Hnd : NoDup (map fst (free_blocks st))).
    { destruct Hinv as (_ & _ & _ & _ & Ht). apply starts_distinct.
      - intros off. specialize (Ht off). rewrite cover_count_app in Ht.
        pose proof (cover_count_nonneg off live).
        pose proof (b2z_range (in_arena off)). lia.
      - intros [a k] Hin. apply in_free_blocks in Hin. cbn [snd]. olia. }
    assert (Emap : forall ks,
               map fst (flat_map (fun k => blocks_of k (free_list st k)) ks) =
               map PAGE_TO_ADDR (flat_map (free_list st) ks)).
    { induction ks as [|k ks IH]; [reflexivity|].
      simpl. rewrite !map_app. f_equal; [|exact IH].
      unfold blocks_of. rewrite map_map. reflexivity. }
    unfold free_blocks in Hnd. rewrite Emap in Hnd.
    eapply NoDup_map_inv; eauto.
  - intros k p Hk Hin.
    destruct (inv_free_block st live k p Hinv Hk Hin) as (Hp & Hal & Hfit).
    split; [apply page_aligned_bytes; auto; lia|].
    rewrite block_bytes by lia. rewrite (block_bytes MAX_ORDER) by olia.
    rewrite span_MAX. unfold PAGE_TO_ADDR. rewrite PAGE_SIZE_eq.
    pose proof (span_pos k (proj1 Hk)). lia.
Qed.

Lemma free_lists_sound_witness :
  exists st,
    after [Alloc 4096] = Some (st, [(PAGE_TO_ADDR 0, 12)]) /\
    NoDup (flat_map (free_list st) order_range) /\
    (forall k p, MIN_ORDER <= k <= MAX_ORDER -> In p (free_list st k) ->
       PAGE_TO_ADDR p mod Z.shiftl 1 k = 0 /\
       0 <= PAGE_TO_ADDR p /\
       PAGE_TO_ADDR p + Z.shiftl 1 k <= Z.shiftl 1 MAX_ORDER).
Proof.
  destruct after_alloc_page as [st E].
  exists st. split; [exact E|].
  apply (free_lists_sound st [(PAGE_TO_ADDR 0, 12)]).
  apply (after_reachable [Alloc 4096]). exact E.
Defined.

(** ** Running out of pages *)

Lemma total_bytes_pages (live : list block) :
  (forall b : block, In b live -> snd b = MIN_ORDER) ->
  total_bytes live = PAGE_SIZE * Z.of_nat (length live).
Proof.
  induction live as [|b live IH]; intros H; [simpl; lia|].
  change (total_bytes (b :: live)) with (Z.shiftl 1 (snd b) + total_bytes live).
  rewrite IH by (intros c Hc; apply H; right; exact Hc).
  rewrite (H b (or_introl eq_refl)). cbn [length]. rewrite Nat2Z.inj_succ.
  change (Z.shiftl 1 MIN_ORDER) with PAGE_SIZE. lia.
Qed.

Lemma run_page_allocs size :
  size <= PAGE_SIZE ->
  forall n st live,
    reachable st live ->
    (forall b, In b live -> snd b = MIN_ORDER) ->
    exists st' live',
      run (repeat (Alloc size) n) (st, live) = Some (st', live') /\
      reachable st' live' /\
      (forall b, In b live' -> snd b = MIN_ORDER) /\
      Z.of_nat (length live') =
      Z.min (Z.of_nat (length live) + Z.of_nat n) N_PAGES.
Proof.
  intros Hsize. pose proof (get_order_page size Hsize) as Eo.
  assert (Hcap : forall st live,
             reachable st live ->
             (forall b, In b live -> snd b = MIN_ORDER) ->
             Z.of_nat (length live) <= N_PAGES /\
             (total_bytes live = Z.shiftl 1 MAX_ORDER <->
              Z.of_nat (length live) = N_PAGES)).
  { intros st live Hr H12.
    pose proof (inv_total_bytes st live (reachable_inv _ _ Hr)) as Hacc.
    pose proof (total_bytes_nonneg (free_blocks st)) as Hnn.
    pose proof (total_bytes_pages live H12) as Hpg.
    change (Z.shiftl 1 MAX_ORDER) with 1048576 in *.
    rewrite PAGE_SIZE_eq in Hpg. rewrite N_PAGES_eq. lia. }
  induction n as [|n IH]; intros st live Hr H12.
  - exists st, live. cbn [repeat run]. destruct (Hcap st live Hr H12).
    repeat split; auto. lia.
  - cbn [repeat run step fst snd].
    pose proof (reachable_inv _ _ Hr) as Hinv.
    destruct (Hcap st live Hr H12) as [Hle Hfull].
    destruct (buddy_alloc_spec st live size Hinv)
      as [[E Hwhy]|(s & p & rest & st1 & _ & _ & _ & _ & E & _ & _)];
      rewrite E; cbn [bind fst snd].
    + assert (Hf : total_bytes live = Z.shiftl 1 MAX_ORDER).
      { apply (page_alloc_full st live size Hinv Eo). eauto. }
      apply Hfull in Hf.
      destruct (IH st live Hr H12) as (st' & live' & Er & Hr' & H12' & Hlen).
      exists st', live'. repeat split; auto. lia.
    + assert (Hr1 : reachable st1 ((PAGE_TO_ADDR p, get_order size) :: live))
        by (eapply reach_alloc; eauto).
      assert (H121 : forall b, In b ((PAGE_TO_ADDR p, get_order size) :: live) ->
                               snd b = MIN_ORDER).
      { intros b [<-|Hb]; [exact Eo|auto]. }
      destruct (IH st1 _ Hr1 H121) as (st' & live' & Er & Hr' & H12' & Hlen).
      exists st', live'. repeat split; auto.
      destruct (Hcap _ _ Hr1 H121) as [Hle1 _].
      cbn [length] in Hlen, Hle1. rewrite Nat2Z.inj_succ in *. lia.
Qed.

(** Page by page the whole arena can be handed out: after [buddy_init], of
    [n] successive requests of at most one page each, the first [N_PAGES]
    succeed and all later ones fail; the request after them fails exactly
    when [n] has reached [N_PAGES]. *)
Theorem page_allocs_exhaust size n :
  size <= PAGE_SIZE ->
  exists st live,
    after (repeat (Alloc size) n) = Some (st, live) /\
    Z.of_nat (length live) = Z.min (Z.of_nat n) N_PAGES /\
    ((exists st', buddy_alloc size st = Some (None, st')) <->
     N_PAGES <= Z.of_nat n).
Proof.
  intros Hsize.
  destruct (run_page_allocs size Hsize n buddy_init [] reach_init)
    as (st & live & Er & Hr & H12 & Hlen); [simpl; tauto|].
  exists st, live. split; [exact Er|]. cbn [length] in Hlen.
  split; [lia|].
  rewrite (page_alloc_full st live size (reachable_inv _ _ Hr)
             (get_order_page size Hsize)).
  rewrite (total_bytes_pages live H12).
  change (Z.shiftl 1 MAX_ORDER) with 1048576.
  rewrite PAGE_SIZE_eq. rewrite N_PAGES_eq in *. lia.
Qed.

Lemma page_allocs_exhaust_witness :
  exists st live,
    after (repeat (Alloc 1) 3) = Some (st, live) /\
    Z.of_nat (length live) = Z.min (Z.of_nat 3) N_PAGES /\
    ((exists st', buddy_alloc 1 st = Some (None, st')) <->
     N_PAGES <= Z.of_nat 3).
Proof.
  apply (page_allocs_exhaust 1 3). vm_compute. discriminate.
Defined.
